(** * local_transcribe.py: the transcription driver and its repetition guards

    A shallow embedding of [scripts/local_transcribe.py].  The script is one
    routine, [main]: it checks [sys.argv], imports the transcription library,
    picks a device, loads the model, runs the inference, folds the lazily
    produced segments into one text under two repetition heuristics and prints
    one JSON object on standard output.

    Python values are modelled as follows.
    - [str] is a list of Unicode code points ([N]); [len] counts code points.
    - [int] is [Z] (unbounded).
    - [float] is a rational: the finite binary64 values are rationals, and
      the floats of the script are time stamps, a ratio of two word counts
      and values passed through unchanged.  The [-] and [*] of the elapsed
      times (lines 135-137) round their exact result to binary64, to nearest
      with ties to even ([round64]); time stamps are finite and far below the
      overflow threshold, so no infinity arises.  The ratio of the two word
      counts is only compared with the literal [3.0]; below 2^52 unique
      words the comparison of the rounded quotient agrees with that of the
      exact one, which the model takes.
    - [dict] literals that are serialised are association lists (insertion
      order is what [json.dumps] prints).
    - [set(words)] is a [gset].
    - the collaborators (importer, torch, the model, the clock) are an oracle,
      [world], that fixes what each call of one invocation answers.
    - [print], [sys.exit], exceptions and [try]/[except] live in a small
      state-and-exception monad [M]; the state is the trace of observable
      events. *)

From Stdlib Require Import ZArith QArith Qround Qpower Lqa List String Ascii Bool Lia.
From stdpp Require Import base decidable list gmap sets.
Import ListNotations.

Set Default Proof Using "Type".

(** ** Python strings *)

Module PyStr.

Definition str : Type := list N.

(** A string literal of the script (ASCII) as a [str]. *)
Definition py (s : string) : str := List.map N_of_ascii (list_ascii_of_string s).

Definition len {A} (l : list A) : Z := Z.of_nat (length l).

(** [str.isspace] on one code point: CPython's [_PyUnicode_IsWhitespace]. *)
Definition isspace (c : N) : bool :=
  ((0x09 <=? c) && (c <=? 0x0D) ||
   (0x1C <=? c) && (c <=? 0x1F) ||
   (c =? 0x20) || (c =? 0x85) || (c =? 0xA0) || (c =? 0x1680) ||
   (0x2000 <=? c) && (c <=? 0x200A) ||
   (c =? 0x2028) || (c =? 0x2029) || (c =? 0x202F) || (c =? 0x205F) ||
   (c =? 0x3000))%N.

(** [s.lstrip()], [s.rstrip()], [s.strip()] with no argument. *)
Fixpoint lstrip (s : str) : str :=
  match s with
  | [] => []
  | c :: s' => if isspace c then lstrip s' else s
  end.

Definition rstrip (s : str) : str := rev (lstrip (rev s)).

Definition strip (s : str) : str := rstrip (lstrip s).

(** [s.split()] with no argument: maximal runs of non-whitespace.  [word] is
    the run being read. *)
Fixpoint split_from (word : str) (s : str) : list str :=
  match s with
  | [] => match word with [] => [] | _ => [word] end
  | c :: s' =>
      if isspace c
      then match word with
           | [] => split_from [] s'
           | _ => word :: split_from [] s'
           end
      else split_from (word ++ [c]) s'
  end.

Definition split (s : str) : list str := split_from [] s.

(** [sep.join(parts)]. *)
Fixpoint join (sep : str) (parts : list str) : str :=
  match parts with
  | [] => []
  | [p] => p
  | p :: ps => p ++ sep ++ join sep ps
  end.

(** [l[:k]]: a negative bound counts from the end. *)
Definition slice_to {A} (l : list A) (k : Z) : list A :=
  if (k <? 0)%Z then take (Z.to_nat (len l + k)) l else take (Z.to_nat k) l.

(** Truth value of a string: non-empty. *)
Definition truthy (s : str) : bool :=
  match s with [] => false | _ => true end.

End PyStr.

Import PyStr.

(** ** Python numbers *)

(** [int(x)] on a float truncates toward zero. *)
Definition py_int (x : Q) : Z := Z.quot (Qnum x) (Z.pos (Qden x)).

(** *** Binary64 arithmetic

    A finite [float] is a multiple [m * 2^k] of a power of two with
    [|m| < 2^53] and [-1074 <= k].  An arithmetic operation answers the
    exact result rounded to the nearest such number, ties to the even
    multiple.  Results of a magnitude of [2^1024] or more, which binary64
    replaces by an infinity, are out of the reach of time stamps and are
    left out. *)

(** The integer nearest to [x], ties to even. *)
Definition rne (x : Q) : Z :=
  let f := Qfloor x in
  match Qcompare (x - inject_Z f) (1 # 2) with
  | Lt => f
  | Gt => (f + 1)%Z
  | Eq => if Z.even f then f else (f + 1)%Z
  end.

(** For [0 < x], the integer [e] with [2^e <= x < 2^(e+1)]. *)
Definition ilog2 (x : Q) : Z :=
  let e := (Z.log2 (Qnum x) - Z.log2 (Z.pos (Qden x)))%Z in
  if Qle_bool (2 ^ e) x then e else (e - 1)%Z.

(** [x] rounded to a multiple of [2^k]. *)
Definition round_to (k : Z) (x : Q) : Q := (inject_Z (rne (x / 2 ^ k)) * 2 ^ k)%Q.

(** The exponent of the last place of the binary64 numbers around [0 < x]:
    53 significant bits, and [2^-1074] for the subnormal ones. *)
Definition exponent64 (x : Q) : Z := Z.max (ilog2 x - 52) (-1074).

Definition round64 (x : Q) : Q :=
  match Qnum x with
  | Z0 => 0
  | Zpos _ => round_to (exponent64 x) x
  | Zneg _ => - round_to (exponent64 (- x)) (- x)
  end.

(** [a - b] and [a * b] on floats. *)
Definition float_sub (a b : Q) : Q := round64 (a - b).
Definition float_mul (a b : Q) : Q := round64 (a * b).

(** ** JSON documents *)

#[warnings="-register-all"]
Inductive json : Type :=
| JStr (s : str)
| JInt (n : Z)
| JFloat (x : Q)
| JBool (b : bool)
| JObj (fields : list (str * json)).

(** [obj[key]] on a serialised object: the first binding of [key]. *)
Fixpoint assoc (key : str) (fields : list (str * json)) : option json :=
  match fields with
  | [] => None
  | (k, v) :: rest => if bool_decide (k = key) then Some v else assoc key rest
  end.

Definition field (key : string) (j : json) : option json :=
  match j with
  | JObj fields => assoc (py key) fields
  | _ => None
  end.

(** ** Exceptions *)

(** The classes that the two [except] clauses of [main] tell apart. *)
Inductive exn : Type :=
| ImportError (msg : str)        (* ImportError and its subclasses *)
| OtherException (msg : str)     (* any other subclass of Exception *)
| SystemExit (code : Z)          (* raised by sys.exit; not an Exception *)
| KeyboardInterrupt.             (* BaseException only; not an Exception *)

Definition isinstance_ImportError (e : exn) : bool :=
  match e with ImportError _ => true | _ => false end.

Definition isinstance_Exception (e : exn) : bool :=
  match e with ImportError _ | OtherException _ => true | _ => false end.

(** [str(e)]. *)
Definition str_of_exn (e : exn) : str :=
  match e with
  | ImportError m | OtherException m => m
  | SystemExit c => []
  | KeyboardInterrupt => []
  end.

(** What a call answers: a value or a raised exception. *)
Inductive res (A : Type) : Type :=
| Ret (a : A)
| Raise (e : exn).
Arguments Ret {A} a.
Arguments Raise {A} e.

(** ** Observable events *)

Inductive stream : Type := stdout | stderr.

#[global] Instance stream_eq_dec : EqDecision stream.
Proof. solve_decision. Defined.

(** The arguments of [model.transcribe]. *)
Record transcribe_args : Type := {
  audio : str;
  beam_size : Z;
  language : str;
  condition_on_previous_text : bool;
  vad_filter : bool;
  temperature : Q;
  compression_ratio_threshold : Q;
  log_prob_threshold : Q;
  no_speech_threshold : Q;
  initial_prompt : option str
}.

(** Calls into the collaborators ("model work"). *)
Inductive call : Type :=
| ImportFasterWhisper                       (* from faster_whisper import WhisperModel *)
| ImportTorch                               (* import torch *)
| CudaIsAvailable                           (* torch.cuda.is_available() *)
| NewWhisperModel (model_size device compute_type : str)
| Transcribe (args : transcribe_args)       (* model.transcribe(...) *)
| NextSegment.                              (* one step of the segment generator *)

(** One constructor per diagnostic [print(..., file=sys.stderr)] of the
    script, with the values its f-string interpolates. *)
Inductive diagnostic : Type :=
| CudaInfo (cuda_available : bool) (device compute_type model_size : str)
| DebugSettings (device compute_type : str) (beam_size : Z) (vad_filter : bool)
    (temperature : Q)
| DebugProcessing
| WarnRepetitive (count : Z) (head : str)
| WarnBreaking
| DebugProcessed (segments_processed : Z) (length : Z)
| WarnHighRatio (ratio : Q)
| WarnTruncated (text : str).

Inductive payload : Type :=
| Json (j : json)                (* print(json.dumps(j)) *)
| Diag (d : diagnostic).

Inductive event : Type :=
| Print (f : stream) (p : payload)
| Flush (f : stream)
| Call (c : call).

(** ** The collaborators *)

(** A transcription segment; only its text is read. *)
Record segment : Type := { text : str }.

(** The lazy, finite, single-pass segment generator: each step yields a
    segment, stops, or raises (inference runs while the generator is
    consumed). *)
Inductive generator : Type :=
| StopIteration
| Yield (seg : segment) (rest : generator)
| Fails (e : exn).

(** [info], the second component of what [model.transcribe] returns. *)
Record transcription_info : Type := {
  info_language : str;
  info_language_probability : Q;
  info_duration : Q
}.

(** What every collaborator answers during one invocation.  [clock n] is the
    value of the [n]-th call of [time.time()], a binary64 number. *)
Record world : Type := {
  import_faster_whisper : res unit;
  import_torch : res unit;
  cuda_is_available : res bool;
  whisper_model : res unit;
  transcribe : res (generator * transcription_info);
  clock : nat -> Q
}.

(** ** The monad of the script *)

Record state : Type := {
  trace : list event;       (* oldest event first *)
  ticks : nat               (* calls of time.time() so far *)
}.

Definition initial : state := {| trace := []; ticks := 0 |}.

Definition M (A : Type) : Type := state -> res A * state.

Definition ret {A} (a : A) : M A := fun s => (Ret a, s).

Definition raise {A} (e : exn) : M A := fun s => (Raise e, s).

Definition bind {A B} (m : M A) (k : A -> M B) : M B :=
  fun s =>
    match m s with
    | (Ret a, s') => k a s'
    | (Raise e, s') => (Raise e, s')
    end.

Declare Scope py_scope.
Delimit Scope py_scope with pym.
Notation "'let*' x ':=' m 'in' k" := (bind m (fun x => k))
  (at level 10, x pattern, m at level 100, k at level 200) : py_scope.
Notation "m ';;' k" := (bind m (fun _ => k))
  (at level 100, k at level 200, right associativity) : py_scope.
Open Scope py_scope.

Definition emit (e : event) : M unit :=
  fun s => (Ret tt, {| trace := trace s ++ [e]; ticks := ticks s |}).

Definition print (f : stream) (p : payload) : M unit := emit (Print f p).
Definition flush (f : stream) : M unit := emit (Flush f).

(** A call into a collaborator: logged, then answered by the oracle. *)
Definition invoke {A} (c : call) (answer : res A) : M A :=
  emit (Call c) ;;
  match answer with
  | Ret a => ret a
  | Raise e => raise e
  end.

Definition sys_exit {A} (code : Z) : M A := raise (SystemExit code).

(** [try: body  except ImportError as e: h1(e)  except Exception as e: h2(e)]:
    the first clause whose class the exception is an instance of runs; an
    exception of neither class propagates. *)
Definition try_except {A} (body : M A) (on_import_error on_exception : exn -> M A) : M A :=
  fun s =>
    match body s with
    | (Ret a, s') => (Ret a, s')
    | (Raise e, s') =>
        if isinstance_ImportError e then on_import_error e s'
        else if isinstance_Exception e then on_exception e s'
        else (Raise e, s')
    end.

(** [l[i]] for a non-negative literal index. *)
Definition getitem (l : list str) (i : nat) : M str :=
  match l !! i with
  | Some x => ret x
  | None => raise (OtherException (py "list index out of range"))
  end.

(** [a / b] on two ints: true division. *)
Definition truediv (a b : Z) : M Q :=
  if (b =? 0)%Z then raise (OtherException (py "division by zero"))
  else ret (Qmake a (Z.to_pos b)).

(** ** The segment loop (lines 73-100) *)

(** The local variables that the loop updates. *)
Record loop_vars : Type := {
  transcribed_text : str;
  segments_processed : Z;
  last_segment_text : str;
  repetition_count : Z
}.

Definition loop_entry : loop_vars :=
  {| transcribed_text := []; segments_processed := 0;
     last_segment_text := []; repetition_count := 0 |}.

Inductive flow : Type := Next | Break.

(** The segment passes the filter of line 99. *)
Definition kept (segment_text : str) : bool :=
  truthy segment_text && (2 <? len segment_text)%Z.

(** Lines 85-96: the exact-repeat guard on the trimmed text. *)
Definition repeat_guard (segment_text : str) (v : loop_vars) : M (flow * loop_vars) :=
  if bool_decide (segment_text = last_segment_text v) then
    let v := {| transcribed_text := transcribed_text v;
                segments_processed := segments_processed v;
                last_segment_text := last_segment_text v;
                repetition_count := repetition_count v + 1 |} in
    print stderr (Diag (WarnRepetitive (repetition_count v) (slice_to segment_text 50))) ;;
    flush stderr ;;
    if (4 <=? repetition_count v)%Z then
      print stderr (Diag WarnBreaking) ;;
      flush stderr ;;
      ret (Break, v)
    else ret (Next, v)
  else
    ret (Next, {| transcribed_text := transcribed_text v;
                  segments_processed := segments_processed v;
                  last_segment_text := segment_text;
                  repetition_count := 0 |}).

(** Lines 82-100: one iteration of the [for] loop. *)
Definition loop_body (seg : segment) (v : loop_vars) : M (flow * loop_vars) :=
  let v := {| transcribed_text := transcribed_text v;
              segments_processed := segments_processed v + 1;
              last_segment_text := last_segment_text v;
              repetition_count := repetition_count v |} in
  let segment_text := strip (text seg) in
  let* (fl, v) := repeat_guard segment_text v in
  match fl with
  | Break => ret (Break, v)
  | Next =>
      if kept segment_text then
        ret (Next, {| transcribed_text := transcribed_text v ++ segment_text ++ py " ";
                      segments_processed := segments_processed v;
                      last_segment_text := last_segment_text v;
                      repetition_count := repetition_count v |})
      else ret (Next, v)
  end.

(** [for segment in segments: ...]: the generator is advanced once per
    iteration and never after a [break]. *)
Fixpoint for_segments (segments : generator) (v : loop_vars) : M loop_vars :=
  let* _ := emit (Call NextSegment) in
  match segments with
  | StopIteration => ret v
  | Fails e => raise e
  | Yield seg rest =>
      let* (fl, v) := loop_body seg v in
      match fl with
      | Break => ret v
      | Next => for_segments rest v
      end
  end.

(** ** The global repetition-ratio guard (lines 107-118) *)

(** Line 111: [len(words) / len(unique_words) if unique_words else 0]. *)
Definition ratio_of (words : list str) (unique_words : gset str) : M Q :=
  if bool_decide (unique_words = ∅) then ret (0 : Q)
  else truediv (len words) (Z.of_nat (size unique_words)).

Definition repetition_guard (transcribed_text : str) : M str :=
  let words := split transcribed_text in
  if (10 <? len words)%Z then
    let unique_words : gset str := list_to_set words in
    let* repetition_ratio := ratio_of words unique_words in
    if Qlt_le_dec 3 repetition_ratio then
      print stderr (Diag (WarnHighRatio repetition_ratio)) ;;
      flush stderr ;;
      let transcribed_text := join (py " ") (slice_to words (Z.min 50 (len words / 3))) in
      print stderr (Diag (WarnTruncated transcribed_text)) ;;
      flush stderr ;;
      ret transcribed_text
    else ret transcribed_text
  else ret transcribed_text.

(** ** From the segments to the final text (lines 72-118) *)

Definition collect_text (segments : generator) : M str :=
  print stderr (Diag DebugProcessing) ;;
  flush stderr ;;
  let* v := for_segments segments loop_entry in
  let transcribed_text := strip (transcribed_text v) in
  print stderr (Diag (DebugProcessed (segments_processed v) (len transcribed_text))) ;;
  flush stderr ;;
  repetition_guard transcribed_text.

(** ** The driver (lines 14-157) *)

(** [time.time()]. *)
Definition now (w : world) : M Q :=
  fun s => (Ret (clock w (ticks s)), {| trace := trace s; ticks := S (ticks s) |}).

Definition usage_record : json :=
  JObj [(py "error",
         JStr (py "Usage: python local_transcribe.py <audio_file_path> [model_size]"))].

Definition dependency_record (e : exn) : json :=
  JObj [(py "error", JStr (py "faster-whisper not installed"));
        (py "details", JStr (str_of_exn e));
        (py "install_command", JStr (py "pip install faster-whisper"))].

Definition failure_record (e : exn) (audio_file_path : str) : json :=
  JObj [(py "error", JStr (py "Transcription failed"));
        (py "details", JStr (str_of_exn e));
        (py "audio_file", JStr audio_file_path)].

(** The [result] dictionary of lines 123-139. *)
Definition result_record (transcribed_text : str) (info : transcription_info)
    (device compute_type model_size : str) (beam_size : Z) (vad_filter cuda_available : bool)
    (start_time model_load_time transcription_start_time end_time : Q) : json :=
  JObj [(py "text", JStr transcribed_text);
        (py "language", JStr (info_language info));
        (py "language_probability", JFloat (info_language_probability info));
        (py "duration", JFloat (info_duration info));
        (py "device", JStr device);
        (py "compute_type", JStr compute_type);
        (py "model_size", JStr model_size);
        (py "beam_size", JInt beam_size);
        (py "vad_filter", JBool vad_filter);
        (py "cuda_available", JBool cuda_available);
        (py "timing",
         JObj [(py "model_load_ms",
                JInt (py_int (float_mul (float_sub model_load_time start_time) 1000)));
               (py "transcription_ms",
                JInt (py_int (float_mul (float_sub end_time transcription_start_time) 1000)));
               (py "total_ms",
                JInt (py_int (float_mul (float_sub end_time start_time) 1000)))])].

(** The body of the [try] (lines 23-141). *)
Definition try_body (w : world) (audio_file_path model_size : str) : M unit :=
  let* _ := invoke ImportFasterWhisper (import_faster_whisper w) in
  let* start_time := now w in
  let* _ := invoke ImportTorch (import_torch w) in
  let* cuda_available := invoke CudaIsAvailable (cuda_is_available w) in
  let device := if cuda_available : bool then py "cuda" else py "cpu" in
  let compute_type := if cuda_available then py "float16" else py "int8" in
  print stderr (Diag (CudaInfo cuda_available device compute_type model_size)) ;;
  let* model := invoke (NewWhisperModel model_size device compute_type) (whisper_model w) in
  let* model_load_time := now w in
  let beam_size := (if cuda_available then 5 else 1)%Z in
  let vad_filter := if cuda_available then true else false in
  let temperature := 0%Q in
  print stderr (Diag (DebugSettings device compute_type beam_size vad_filter temperature)) ;;
  flush stderr ;;
  let* (segments, info) :=
    invoke (Transcribe {| audio := audio_file_path;
                          beam_size := beam_size;
                          language := py "en";
                          condition_on_previous_text := false;
                          vad_filter := vad_filter;
                          temperature := temperature;
                          compression_ratio_threshold := 24 # 10;
                          log_prob_threshold := - (1);
                          no_speech_threshold := 6 # 10;
                          initial_prompt := None |})
           (transcribe w) in
  let* transcription_start_time := now w in
  let* transcribed_text := collect_text segments in
  let* end_time := now w in
  let result :=
    result_record transcribed_text info device compute_type model_size beam_size vad_filter
      cuda_available start_time model_load_time transcription_start_time end_time in
  print stdout (Json result).

Definition main (w : world) (argv : list str) : M unit :=
  (if (len argv <? 2)%Z || (3 <? len argv)%Z
   then print stdout (Json usage_record) ;; sys_exit 1
   else ret tt) ;;
  let* audio_file_path := getitem argv 1 in
  let* model_size := (if (len argv =? 3)%Z then getitem argv 2 else ret (py "small")) in
  try_except (try_body w audio_file_path model_size)
    (fun e => print stdout (Json (dependency_record e)) ;; sys_exit 1)
    (fun e => print stdout (Json (failure_record e audio_file_path)) ;; sys_exit 1).

(** ** The process boundary: [if __name__ == "__main__": main()] *)

(** How the interpreter ends: [main] returns (status 0), a [SystemExit]
    reaches the top (its code is the status), or another exception does (the
    interpreter prints a traceback and nothing is written by the script). *)
Inductive termination : Type :=
| Exit (status : Z)
| Uncaught (e : exn).

Record run : Type := {
  ending : termination;
  events : list event
}.

Definition run_script (w : world) (argv : list str) : run :=
  match main w argv initial with
  | (Ret _, s) => {| ending := Exit 0; events := trace s |}
  | (Raise (SystemExit code), s) => {| ending := Exit code; events := trace s |}
  | (Raise e, s) => {| ending := Uncaught e; events := trace s |}
  end.

(** What was printed on one stream, in order. *)
Fixpoint printed (f : stream) (t : list event) : list payload :=
  match t with
  | [] => []
  | Print g p :: t' =>
      if bool_decide (f = g) then p :: printed f t' else printed f t'
  | _ :: t' => printed f t'
  end.

(** The calls into the collaborators, in order. *)
Fixpoint calls (t : list event) : list call :=
  match t with
  | [] => []
  | Call c :: t' => c :: calls t'
  | _ :: t' => calls t'
  end.

(** * Definitions used in the statements *)

(** ** Words, traces and the loop without its diagnostics *)

(** A word: non-empty and without whitespace. *)
Definition is_word (word : str) : Prop :=
  word <> [] /\ Forall (fun c => isspace c = false) word.

(** [s] extended by the events [evs]. *)
Definition after (s : state) (evs : list event) : state :=
  {| trace := trace s ++ evs; ticks := ticks s |}.

(** A diagnostic line or a flush, on the error stream. *)
Definition is_diag (e : event) : Prop :=
  match e with
  | Print stderr (Diag _) | Flush stderr => True
  | _ => False
  end.

(** What the segment loop may do: diagnostics and steps of the generator. *)
Definition is_loop_event (e : event) : Prop :=
  is_diag e \/ e = Call NextSegment.

(** What one iteration does to the local variables. *)
Definition loop_step (segment_text : str) (v : loop_vars) : flow * loop_vars :=
  let processed := (segments_processed v + 1)%Z in
  if bool_decide (segment_text = last_segment_text v) then
    let count := (repetition_count v + 1)%Z in
    if (4 <=? count)%Z then
      (Break, {| transcribed_text := transcribed_text v;
                 segments_processed := processed;
                 last_segment_text := last_segment_text v;
                 repetition_count := count |})
    else
      (Next, {| transcribed_text :=
                  if kept segment_text
                  then transcribed_text v ++ segment_text ++ py " "
                  else transcribed_text v;
                segments_processed := processed;
                last_segment_text := last_segment_text v;
                repetition_count := count |})
  else
    (Next, {| transcribed_text :=
                if kept segment_text
                then transcribed_text v ++ segment_text ++ py " "
                else transcribed_text v;
              segments_processed := processed;
              last_segment_text := segment_text;
              repetition_count := 0 |}).

(** What the whole loop returns. *)
Fixpoint scan (segments : generator) (v : loop_vars) : res loop_vars :=
  match segments with
  | StopIteration => Ret v
  | Fails e => Raise e
  | Yield seg rest =>
      match loop_step (strip (text seg)) v with
      | (Break, v') => Ret v'
      | (Next, v') => scan rest v'
      end
  end.

(** How many times the loop advances the generator. *)
Fixpoint pulls (segments : generator) (v : loop_vars) : nat :=
  match segments with
  | StopIteration | Fails _ => 1
  | Yield seg rest =>
      match loop_step (strip (text seg)) v with
      | (Break, _) => 1
      | (Next, v') => S (pulls rest v')
      end
  end.

(** The exception that ends the generator, if it ends that way. *)
Fixpoint failure (segments : generator) : option exn :=
  match segments with
  | StopIteration => None
  | Fails e => Some e
  | Yield _ rest => failure rest
  end.

(** The segments the generator yields if it is run to its end. *)
Fixpoint yielded (segments : generator) : list segment :=
  match segments with
  | Yield seg rest => seg :: yielded rest
  | _ => []
  end.

(** The accumulated text for a list of trimmed segment texts that all reach
    line 99: those that pass the filter, each followed by one space. *)
Definition appended (texts : list str) : str :=
  List.concat (List.map (fun t => t ++ py " ") (List.filter kept texts)).

(** ** The exact-repeat guard in the words of the specification *)

(** One iteration of a loop in which a repeat is a segment whose trimmed
    text equals that of the immediately preceding segment, [previous]; the
    first segment of a stream has no preceding one. *)
Definition preceding_step (previous : option str) (segment_text : str) (v : loop_vars)
    : flow * loop_vars :=
  let processed := (segments_processed v + 1)%Z in
  if bool_decide (previous = Some segment_text) then
    let count := (repetition_count v + 1)%Z in
    if (4 <=? count)%Z then
      (Break, {| transcribed_text := transcribed_text v;
                 segments_processed := processed;
                 last_segment_text := segment_text;
                 repetition_count := count |})
    else
      (Next, {| transcribed_text :=
                  if kept segment_text
                  then transcribed_text v ++ segment_text ++ py " "
                  else transcribed_text v;
                segments_processed := processed;
                last_segment_text := segment_text;
                repetition_count := count |})
  else
    (Next, {| transcribed_text :=
                if kept segment_text
                then transcribed_text v ++ segment_text ++ py " "
                else transcribed_text v;
              segments_processed := processed;
              last_segment_text := segment_text;
              repetition_count := 0 |}).

(** The loop of that reading, over a stream that comes after [previous]. *)
Fixpoint preceding_scan (previous : option str) (segments : generator) (v : loop_vars)
    : res loop_vars :=
  match segments with
  | StopIteration => Ret v
  | Fails e => Raise e
  | Yield seg rest =>
      match preceding_step previous (strip (text seg)) v with
      | (Break, v') => Ret v'
      | (Next, v') => preceding_scan (Some (strip (text seg))) rest v'
      end
  end.

(** ** The ratio guard in the words of the specification *)

(** The number of distinct words. *)
Definition unique_count (words : list str) : Z :=
  Z.of_nat (size (list_to_set words : gset str)).

(** Step 6 as the specification words it: more than 10 words, and the word
    count divided by the unique-word count exceeds 3. *)
Definition ratio_exceeded (words : list str) : Prop :=
  (10 < len words)%Z /\
  (3 < inject_Z (len words) / inject_Z (unique_count words))%Q.

#[global] Instance ratio_exceeded_dec words : Decision (ratio_exceeded words).
Proof.
  unfold ratio_exceeded. apply and_dec; [apply Z_lt_dec|].
  destruct (Qlt_le_dec 3 (inject_Z (len words) / inject_Z (unique_count words))) as [H|H].
  - left. exact H.
  - right. apply Qle_not_lt. exact H.
Defined.

(** Then the text is cut to the first [min(50, word_count // 3)] words,
    joined by single spaces; otherwise it is left as it is. *)
Definition truncated (t : str) : str :=
  let words := split t in
  if decide (ratio_exceeded words)
  then join (py " ") (take (Z.to_nat (Z.min 50 (len words / 3))) words)
  else t.

(** What lines 72-118 return for a generator: the text after both guards, or
    the exception of the generator. *)
Definition final_text (g : generator) : res str :=
  match scan g loop_entry with
  | Ret v => Ret (truncated (strip (transcribed_text v)))
  | Raise e => Raise e
  end.

(** ** Streams and texts of the examples *)

(** [needle] is a prefix of [hay]. *)
Fixpoint starts_with (needle hay : str) : bool :=
  match needle, hay with
  | [], _ => true
  | _ :: _, [] => false
  | c :: needle', d :: hay' => (c =? d)%N && starts_with needle' hay'
  end.

(** The number of positions of [hay] at which [needle] occurs. *)
Fixpoint occurrences (needle hay : str) : nat :=
  match hay with
  | [] => 0
  | _ :: hay' => (if starts_with needle hay then 1 else 0) + occurrences needle hay'
  end.

(** A segment whose text is "foo". *)
Definition foo_segment : segment := {| text := py "foo" |}.

(** A stream that starts with five segments "foo". *)
Definition five_foo (rest : generator) : generator :=
  Yield foo_segment (Yield foo_segment (Yield foo_segment
    (Yield foo_segment (Yield foo_segment rest)))).

(** A stream that starts with the four given segments. *)
Definition four_then (s1 s2 s3 s4 : segment) (rest : generator) : generator :=
  Yield s1 (Yield s2 (Yield s3 (Yield s4 rest))).

(** Four segments of white space, then speech. *)
Definition blank_start : generator :=
  four_then {| text := py "  " |} {| text := [] |} {| text := py " " |} {| text := [] |}
    (Yield {| text := py "hello world" |} StopIteration).

(** Forty words, of which four are distinct. *)
Definition looping_text : str :=
  join (py " ") (List.concat (repeat [py "so"; py "the"; py "thing"; py "is"] 10)).

(** ** The driver without its diagnostics *)

(** The arguments that line 57 passes for a given accelerator flag. *)
Definition transcribe_args_for (cuda_available : bool) (audio_file_path : str) : transcribe_args :=
  {| audio := audio_file_path;
     beam_size := if cuda_available then 5 else 1;
     language := py "en";
     condition_on_previous_text := false;
     vad_filter := cuda_available;
     temperature := 0;
     compression_ratio_threshold := 24 # 10;
     log_prob_threshold := - (1);
     no_speech_threshold := 6 # 10;
     initial_prompt := None |}.

(** What the body of the [try] does up to the call of [model.transcribe]
    when every collaborator answers. *)
Definition setup_events (cuda_available : bool) (audio_file_path model_size : str) : list event :=
  let device := if cuda_available then py "cuda" else py "cpu" in
  let compute_type := if cuda_available then py "float16" else py "int8" in
  [Call ImportFasterWhisper; Call ImportTorch; Call CudaIsAvailable;
   Print stderr (Diag (CudaInfo cuda_available device compute_type model_size));
   Call (NewWhisperModel model_size device compute_type);
   Print stderr (Diag (DebugSettings device compute_type (if cuda_available then 5 else 1)
                         cuda_available 0));
   Flush stderr;
   Call (Transcribe (transcribe_args_for cuda_available audio_file_path))].

(** What the body of the [try] ends with: the success record that it prints,
    or the exception that leaves it. *)
Definition try_result (w : world) (audio_file_path model_size : str) : res json :=
  match import_faster_whisper w with Raise e => Raise e | Ret _ =>
  match import_torch w with Raise e => Raise e | Ret _ =>
  match cuda_is_available w with Raise e => Raise e | Ret cuda_available =>
  match whisper_model w with Raise e => Raise e | Ret _ =>
  match transcribe w with Raise e => Raise e | Ret (segments, info) =>
  match final_text segments with Raise e => Raise e | Ret transcribed_text =>
    Ret (result_record transcribed_text info
           (if cuda_available then py "cuda" else py "cpu")
           (if cuda_available then py "float16" else py "int8")
           model_size
           (if cuda_available then 5 else 1)
           cuda_available cuda_available
           (clock w 0) (clock w 1) (clock w 2) (clock w 3))
  end end end end end end.

(** What the body of the [try] does before its last line: collaborator
    calls, and diagnostics on the error stream. *)
Definition is_work_event (e : event) : Prop :=
  is_diag e \/ exists c, e = Call c.

(** A model load or an inference call carries the parameters selected for
    the accelerator flag that [torch.cuda.is_available()] answered. *)
Definition call_ok (w : world) (audio_file_path model_size : str) (c : call) : Prop :=
  match c with
  | NewWhisperModel size device compute_type =>
      exists cuda_available,
        cuda_is_available w = Ret cuda_available /\
        size = model_size /\
        device = (if cuda_available then py "cuda" else py "cpu") /\
        compute_type = (if cuda_available then py "float16" else py "int8")
  | Transcribe args =>
      exists cuda_available,
        cuda_is_available w = Ret cuda_available /\
        args = transcribe_args_for cuda_available audio_file_path
  | _ => True
  end.

(** How an invocation with an accepted argument list ends, given what the
    body of the [try] ends with and the events [evs] before its last line. *)
Definition run_of_result (r : res json) (audio_file_path : str) (evs : list event) : run :=
  match r with
  | Ret j => {| ending := Exit 0; events := evs ++ [Print stdout (Json j)] |}
  | Raise e =>
      if isinstance_ImportError e then
        {| ending := Exit 1; events := evs ++ [Print stdout (Json (dependency_record e))] |}
      else if isinstance_Exception e then
        {| ending := Exit 1;
           events := evs ++ [Print stdout (Json (failure_record e audio_file_path))] |}
      else
        {| ending := match e with SystemExit code => Exit code | _ => Uncaught e end;
           events := evs |}
  end.

(** The model size that line 20 selects. *)
Definition model_size_of (optional : list str) : str :=
  match optional with
  | [] => py "small"
  | model_size :: _ => model_size
  end.

(** ** Sample invocations *)

Definition sample_info : transcription_info :=
  {| info_language := py "en";
     info_language_probability := 99 # 100;
     info_duration := 3 |}.

Definition sample_segments : generator :=
  Yield {| text := py " Hello there. " |}
    (Yield {| text := py " ok" |}
       (Yield {| text := py " How are you?" |} StopIteration)).

(** Everything is installed and answers; the clock advances by a quarter of
    a second per reading. *)
Definition sample_world (cuda_available : bool) : world :=
  {| import_faster_whisper := Ret tt;
     import_torch := Ret tt;
     cuda_is_available := Ret cuda_available;
     whisper_model := Ret tt;
     transcribe := Ret (sample_segments, sample_info);
     clock := fun n => (1700000000 + inject_Z (Z.of_nat n) / 4)%Q |}.

(** The transcription library is not installed. *)
Definition bare_world : world :=
  {| import_faster_whisper := Raise (ImportError (py "No module named 'faster_whisper'"));
     import_torch := Ret tt;
     cuda_is_available := Ret false;
     whisper_model := Ret tt;
     transcribe := Ret (sample_segments, sample_info);
     clock := fun n => inject_Z (Z.of_nat n) |}.

(** The run is interrupted during inference. *)
Definition interrupted_world : world :=
  {| import_faster_whisper := Ret tt;
     import_torch := Ret tt;
     cuda_is_available := Ret false;
     whisper_model := Ret tt;
     transcribe := Ret (Yield {| text := py " Hello there. " |} (Fails KeyboardInterrupt),
                        sample_info);
     clock := fun n => inject_Z (Z.of_nat n) |}.

(** The system clock is set back by five seconds while the model loads. *)
Definition stepped_back_world : world :=
  {| import_faster_whisper := Ret tt;
     import_torch := Ret tt;
     cuda_is_available := Ret false;
     whisper_model := Ret tt;
     transcribe := Ret (sample_segments, sample_info);
     clock := fun n => match n with
                       | O => 1700000010%Q
                       | _ => (1700000005 + inject_Z (Z.of_nat n) / 4)%Q
                       end |}.

(** The clock reads 1.0, 1.117, 1.117 and 1.46: the binary64 values that
    these decimals denote. *)
Definition rounding_world : world :=
  {| import_faster_whisper := Ret tt;
     import_torch := Ret tt;
     cuda_is_available := Ret false;
     whisper_model := Ret tt;
     transcribe := Ret (sample_segments, sample_info);
     clock := fun n => match n with
                       | O => round64 1
                       | 1%nat | 2%nat => round64 (1117 # 1000)
                       | _ => round64 (146 # 100)
                       end |}.

(** The success record of [sample_world] for one positional argument. *)
Definition sample_record (cuda_available : bool) : json :=
  result_record (py "Hello there. How are you?") sample_info
    (if cuda_available then py "cuda" else py "cpu")
    (if cuda_available then py "float16" else py "int8")
    (py "small") (if cuda_available then 5 else 1) cuda_available cuda_available
    (clock (sample_world cuda_available) 0) (clock (sample_world cuda_available) 1)
    (clock (sample_world cuda_available) 2) (clock (sample_world cuda_available) 3).

(** The error record of [bare_world]. *)
Definition bare_record : json :=
  dependency_record (ImportError (py "No module named 'faster_whisper'")).

Definition script : str := py "local_transcribe.py".
Definition wav : str := py "clip.wav".

(** ** Time stamps *)

(** The four readings of a run are time stamps: numbers of seconds of a
    magnitude far below the largest binary64 number, so that the elapsed
    times in milliseconds are finite and [int] does not fail on them. *)
Definition clock_in_range (w : world) : Prop :=
  List.Forall (fun t => (- 2 ^ 62 <= t /\ t <= 2 ^ 62)%Q)
    [clock w 0; clock w 1; clock w 2; clock w 3].

(** ** Records and exceptions *)

(** The tag of the usage record. *)
Definition usage_message : str :=
  py "Usage: python local_transcribe.py <audio_file_path> [model_size]".

(** The exception of an answer, if it is one. *)
Definition raised {A} (r : res A) : list exn :=
  match r with
  | Raise e => [e]
  | Ret _ => []
  end.

(** Every exception that the collaborators of [w] can raise. *)
Definition world_exceptions (w : world) : list exn :=
  raised (import_faster_whisper w) ++ raised (import_torch w) ++
  raised (cuda_is_available w) ++ raised (whisper_model w) ++
  match transcribe w with
  | Raise e => [e]
  | Ret (segments, _) =>
      match failure segments with
      | Some e => [e]
      | None => []
      end
  end.

(** The collaborators raise nothing outside the [Exception] hierarchy. *)
Definition raises_only_exceptions (w : world) : Prop :=
  List.Forall (fun e => isinstance_Exception e = true) (world_exceptions w).

(** A success record: the [result] dictionary of lines 123-139. *)
Definition is_success_record (j : json) : Prop :=
  exists txt info device compute_type model_size beam vad cuda t0 t1 t2 t3,
    j = result_record txt info device compute_type model_size beam vad cuda t0 t1 t2 t3.

(** ** Streams, runs of equal texts and call sequences *)

(** The generator that yields the given segments and then goes on as [rest]. *)
Definition prepend (segs : list segment) (rest : generator) : generator :=
  List.fold_right Yield rest segs.

(** A stream of ten segments that alternate between two texts of the same
    four words: no segment repeats the one before it. *)
Definition looping_stream : generator :=
  prepend
    (List.concat (repeat [ {| text := py " so the thing is" |};
                           {| text := py " the thing is so" |} ] 5))
    StopIteration.

(** The text that the loop accumulates over [looping_stream]: forty words. *)
Definition looping_accumulated : str :=
  List.concat (repeat (py "so the thing is the thing is so ") 5).

(** [texts] has [n] consecutive equal elements. *)
Definition has_run (n : nat) (texts : list str) : Prop :=
  exists pre t post, texts = pre ++ repeat t n ++ post.

(** The repeat counter, started at [count] with [last] remembered, stays
    below 4 along [texts]. *)
Fixpoint runs_ok (last : str) (count : Z) (texts : list str) : bool :=
  match texts with
  | [] => true
  | t :: texts' =>
      if bool_decide (t = last)
      then (count + 1 <? 4)%Z && runs_ok last (count + 1) texts'
      else runs_ok t 0 texts'
  end.

(** How often [word] occurs in [words]. *)
Definition occurrences_of (word : str) (words : list str) : nat :=
  length (List.filter (fun x => bool_decide (x = word)) words).

(** The collaborator calls of lines 24-68, in the order of the script. *)
Definition setup_calls (cuda_available : bool) (audio_file_path model_size : str) : list call :=
  [ImportFasterWhisper; ImportTorch; CudaIsAvailable;
   NewWhisperModel model_size
     (if cuda_available then py "cuda" else py "cpu")
     (if cuda_available then py "float16" else py "int8");
   Transcribe (transcribe_args_for cuda_available audio_file_path)].

(** torch is not installed, the transcription library is. *)
Definition torchless_world : world :=
  {| import_faster_whisper := Ret tt;
     import_torch := Raise (ImportError (py "No module named 'torch'"));
     cuda_is_available := Ret false;
     whisper_model := Ret tt;
     transcribe := Ret (sample_segments, sample_info);
     clock := fun n => inject_Z (Z.of_nat n) |}.


(** Inference fails after two segments were produced. *)
Definition failing_world : world :=
  {| import_faster_whisper := Ret tt;
     import_torch := Ret tt;
     cuda_is_available := Ret false;
     whisper_model := Ret tt;
     transcribe :=
       Ret (prepend [ {| text := py " Hello there. " |}; {| text := py " How are you?" |} ]
              (Fails (OtherException (py "Invalid data found when processing input"))),
            sample_info);
     clock := fun n => inject_Z (Z.of_nat n) |}.

(** * Properties *)

(** ** Strings *)

Section Strings.

Implicit Types (s t word : str) (c : N).

Lemma lstrip_suffix s : exists p, s = p ++ lstrip s /\ Forall (fun c => isspace c = true) p.
Proof.
  induction s as [|c s IH]; simpl.
  - exists []. split; [reflexivity | constructor].
  - destruct (isspace c) eqn:Hc.
    + destruct IH as (p & Hp & Hall). exists (c :: p). split.
      * simpl. congruence.
      * constructor; assumption.
    + exists []. split; [reflexivity | constructor].
Qed.

Lemma lstrip_head s c t : lstrip s = c :: t -> isspace c = false.
Proof.
  induction s as [|d s IH]; simpl; [discriminate|].
  destruct (isspace d) eqn:Hd; [exact IH|].
  intros [= -> _]. exact Hd.
Qed.

Lemma lstrip_id c s : isspace c = false -> lstrip (c :: s) = c :: s.
Proof. intros H. simpl. rewrite H. reflexivity. Qed.

Lemma lstrip_idem s : lstrip (lstrip s) = lstrip s.
Proof.
  destruct (lstrip s) as [|c t] eqn:E; [reflexivity|].
  apply lstrip_id. eapply lstrip_head. exact E.
Qed.

Lemma lstrip_spaces p : Forall (fun c => isspace c = true) p -> lstrip p = [].
Proof. induction 1 as [|c p Hc _ IH]; simpl; [reflexivity|]. rewrite Hc. exact IH. Qed.

Lemma rstrip_prefix s : exists p, s = rstrip s ++ p /\ Forall (fun c => isspace c = true) p.
Proof.
  destruct (lstrip_suffix (rev s)) as (p & Hp & Hall).
  exists (rev p). split.
  - unfold rstrip. rewrite <- rev_app_distr, <- Hp, rev_involutive. reflexivity.
  - apply Forall_rev. exact Hall.
Qed.

Lemma rstrip_idem s : rstrip (rstrip s) = rstrip s.
Proof. unfold rstrip. rewrite rev_involutive, lstrip_idem. reflexivity. Qed.

(** Trimming on the right does not bring whitespace to the front. *)
Lemma lstrip_rstrip s : lstrip s = s -> lstrip (rstrip s) = rstrip s.
Proof.
  intros Hs. destruct (rstrip_prefix s) as (p & Hp & _).
  destruct (rstrip s) as [|c t] eqn:E; [reflexivity|].
  apply lstrip_id. rewrite Hp in Hs.
  apply (lstrip_head ((c :: t) ++ p) c (t ++ p)). exact Hs.
Qed.

Lemma strip_idem s : strip (strip s) = strip s.
Proof.
  unfold strip. rewrite (lstrip_rstrip (lstrip s)) by apply lstrip_idem.
  apply rstrip_idem.
Qed.

Lemma strip_nil : strip [] = [].
Proof. reflexivity. Qed.

(** A string that starts and ends with a visible character is its own
    [strip]. *)
Lemma strip_fixed s :
  lstrip s = s -> lstrip (rev s) = rev s -> strip s = s.
Proof.
  intros H1 H2. unfold strip, rstrip. rewrite H1, H2. apply rev_involutive.
Qed.

Lemma split_from_words word s :
  Forall (fun c => isspace c = false) word ->
  Forall is_word (split_from word s).
Proof.
  revert word. induction s as [|c s IH]; intros word Hw; simpl.
  - destruct word; constructor; [|constructor]. split; [discriminate | exact Hw].
  - destruct (isspace c) eqn:Hc.
    + destruct word as [|d word'].
      * apply IH. constructor.
      * constructor; [split; [discriminate | exact Hw] | apply IH; constructor].
    + apply IH. apply Forall_app. split; [exact Hw|]. constructor; [exact Hc | constructor].
Qed.

Lemma split_words s : Forall is_word (split s).
Proof. apply split_from_words. constructor. Qed.

Lemma join_lstrip ws :
  Forall is_word ws -> lstrip (join (py " ") ws) = join (py " ") ws.
Proof.
  intros Hws. destruct ws as [|w ws]; [reflexivity|].
  apply Forall_cons in Hws as [[Hne Hw] _].
  destruct w as [|c w]; [congruence|].
  apply Forall_cons in Hw as [Hc _].
  destruct ws; simpl; rewrite Hc; reflexivity.
Qed.

Lemma join_ends sep ws :
  ws <> [] -> exists pre w, last ws = Some w /\ join sep ws = pre ++ w.
Proof.
  induction ws as [|w ws IH]; [congruence|]. intros _.
  destruct ws as [|w' ws].
  - exists [], w. split; reflexivity.
  - destruct IH as (pre & x & Hlast & Hjoin); [discriminate|].
    exists (w ++ sep ++ pre), x. split; [exact Hlast|].
    change (join sep (w :: w' :: ws)) with (w ++ sep ++ join sep (w' :: ws)).
    rewrite Hjoin, <- !app_assoc. reflexivity.
Qed.

Lemma join_rstrip ws :
  Forall is_word ws -> lstrip (rev (join (py " ") ws)) = rev (join (py " ") ws).
Proof.
  intros Hws. destruct ws as [|w0 ws0] eqn:E; [reflexivity|]. rewrite <- E in *.
  destruct (join_ends (py " ") ws) as (pre & w & Hlast & Hjoin); [congruence|].
  assert (Hw : is_word w).
  { rewrite Forall_forall in Hws. apply Hws.
    apply last_Some_elem_of. exact Hlast. }
  destruct Hw as [Hne Hw]. rewrite Hjoin.
  destruct (exists_last Hne) as (w' & c & ->).
  apply Forall_app in Hw as [_ Hc]. apply Forall_cons in Hc as [Hc _].
  rewrite app_assoc, rev_unit. apply lstrip_id. exact Hc.
Qed.

(** Words joined by single spaces have no whitespace at either end. *)
Lemma join_words_strip ws :
  Forall is_word ws -> strip (join (py " ") ws) = join (py " ") ws.
Proof.
  intros Hws. apply strip_fixed; [apply join_lstrip | apply join_rstrip]; exact Hws.
Qed.

End Strings.

(** ** Traces *)

Lemma after_nil s : after s [] = s.
Proof. destruct s. unfold after. simpl. rewrite app_nil_r. reflexivity. Qed.

Lemma after_after s evs1 evs2 : after (after s evs1) evs2 = after s (evs1 ++ evs2).
Proof. unfold after. simpl. rewrite app_assoc. reflexivity. Qed.

Lemma emit_after e s : emit e s = (Ret tt, after s [e]).
Proof. reflexivity. Qed.

Lemma printed_app f t1 t2 : printed f (t1 ++ t2) = printed f t1 ++ printed f t2.
Proof.
  induction t1 as [|e t1 IH]; [reflexivity|].
  destruct e as [g p| |]; simpl; try exact IH.
  destruct (bool_decide (f = g)); simpl; congruence.
Qed.

Lemma calls_app t1 t2 : calls (t1 ++ t2) = calls t1 ++ calls t2.
Proof.
  induction t1 as [|e t1 IH]; [reflexivity|].
  destruct e; simpl; congruence.
Qed.

Lemma diag_printed_stdout evs : Forall is_diag evs -> printed stdout evs = [].
Proof.
  induction 1 as [|e evs He _ IH]; [reflexivity|].
  destruct e as [[] []| []|]; simpl in *; solve [exact IH | contradiction].
Qed.

Lemma diag_calls evs : Forall is_diag evs -> calls evs = [].
Proof.
  induction 1 as [|e evs He _ IH]; [reflexivity|].
  destruct e as [[] []| []|]; simpl in *; solve [exact IH | contradiction].
Qed.

Lemma loop_printed_stdout evs : Forall is_loop_event evs -> printed stdout evs = [].
Proof.
  induction 1 as [|e evs He _ IH]; [reflexivity|].
  destruct He as [He | ->]; [|exact IH].
  destruct e as [[] []| []|]; simpl in *; solve [exact IH | contradiction].
Qed.

Lemma diag_loop_event evs : Forall is_diag evs -> Forall is_loop_event evs.
Proof. intros H. eapply Forall_impl; [exact H|]. intros e He. left. exact He. Qed.

(** ** The loop without its diagnostics *)

Lemma loop_body_step seg v s :
  exists evs, Forall is_diag evs /\
    loop_body seg v s = (Ret (loop_step (strip (text seg)) v), after s evs).
Proof.
  unfold loop_body, loop_step, repeat_guard, bind, print, flush, emit, ret, after. simpl.
  destruct (bool_decide (strip (text seg) = last_segment_text v)); simpl.
  - destruct (4 <=? repetition_count v + 1)%Z; simpl.
    + rewrite <- !app_assoc. simpl. eexists. split; [|reflexivity].
      repeat constructor.
    + destruct (kept (strip (text seg))); rewrite <- !app_assoc; simpl;
        (eexists; split; [|reflexivity]); repeat constructor.
  - destruct (kept (strip (text seg))); exists []; rewrite app_nil_r;
      (split; [constructor | destruct s; reflexivity]).
Qed.

Lemma for_segments_scan g v s :
  exists evs, Forall is_loop_event evs /\
    calls evs = repeat NextSegment (pulls g v) /\
    for_segments g v s = (scan g v, after s evs).
Proof.
  revert v s. induction g as [|seg rest IH|e]; intros v s.
  - exists [Call NextSegment]. split; [repeat constructor; right; reflexivity|].
    split; reflexivity.
  - destruct (loop_body_step seg v (after s [Call NextSegment])) as (evs & Hevs & Hbody).
    simpl. unfold bind at 1. rewrite emit_after. unfold bind at 1. rewrite Hbody.
    rewrite after_after.
    destruct (loop_step (strip (text seg)) v) as [[] v'].
    + destruct (IH v' (after s ([Call NextSegment] ++ evs))) as (evs' & Hevs' & Hcalls & Hrest).
      rewrite Hrest, after_after. eexists. split; [|split; [|reflexivity]].
      * apply Forall_app. split; [|exact Hevs'].
        constructor; [right; reflexivity | apply diag_loop_event; exact Hevs].
      * rewrite !calls_app, (diag_calls evs Hevs), Hcalls. reflexivity.
    + eexists. split; [|split; [|reflexivity]].
      * constructor; [right; reflexivity | apply diag_loop_event; exact Hevs].
      * rewrite calls_app, (diag_calls evs Hevs). reflexivity.
  - exists [Call NextSegment]. split; [repeat constructor; right; reflexivity|].
    split; reflexivity.
Qed.

Lemma scan_raise g v e : scan g v = Raise e -> failure g = Some e.
Proof.
  revert v. induction g as [|seg rest IH|e']; intros v; simpl.
  - discriminate.
  - destruct (loop_step (strip (text seg)) v) as [[] v']; [apply IH | discriminate].
  - congruence.
Qed.

Lemma appended_cons t texts :
  appended (t :: texts) = (if kept t then t ++ py " " else []) ++ appended texts.
Proof.
  unfold appended. simpl. destruct (kept t); simpl; [|reflexivity].
  rewrite <- app_assoc. reflexivity.
Qed.

(** The loop appends the kept texts of the first [k] segments, where [k]
    counts the iterations that were not ended by [break]. *)
Lemma scan_text g v v' :
  scan g v = Ret v' ->
  (repetition_count v < 4)%Z ->
  exists k : nat,
    segments_processed v' =
      (segments_processed v + Z.of_nat k
       + (if (4 <=? repetition_count v')%Z then 1 else 0))%Z /\
    (k <= length (yielded g))%nat /\
    transcribed_text v' =
      transcribed_text v ++ appended (List.map (fun seg => strip (text seg)) (take k (yielded g))).
Proof.
  revert v. induction g as [|seg rest IH|e]; intros v; simpl.
  - intros [= <-] Hc. exists 0%nat.
    destruct (Z.leb_spec 4 (repetition_count v)); [lia|].
    split; [lia|]. split; [simpl; lia|].
    simpl. rewrite app_nil_r. reflexivity.
  - unfold loop_step.
    destruct (bool_decide (strip (text seg) = last_segment_text v)).
    + destruct (Z.leb_spec 4 (repetition_count v + 1)) as [Hge|Hlt].
      * intros [= <-] Hc. exists 0%nat. simpl.
        destruct (Z.leb_spec 4 (repetition_count v + 1)); [|lia].
        split; [lia|]. split; [lia|]. rewrite app_nil_r. reflexivity.
      * intros Hscan Hc. apply IH in Hscan as (k & Hp & Hk & Ht); [|simpl; lia].
        exists (S k). simpl in *. split; [lia|]. split; [lia|].
        rewrite Ht, appended_cons.
        destruct (kept (strip (text seg))); rewrite <- ?app_assoc; reflexivity.
    + intros Hscan Hc. apply IH in Hscan as (k & Hp & Hk & Ht); [|simpl; lia].
      exists (S k). simpl in *. split; [lia|]. split; [lia|].
      rewrite Ht, appended_cons.
      destruct (kept (strip (text seg))); rewrite <- ?app_assoc; reflexivity.
  - discriminate.
Qed.

(** ** The repetition-ratio guard *)

Lemma unique_count_pos (words : list str) : words <> [] -> (0 < unique_count words)%Z.
Proof.
  intros Hne. unfold unique_count.
  destruct words as [|w words]; [congruence|].
  assert (size (list_to_set (w :: words) : gset str) <> 0%nat); [|lia].
  intros H0. apply size_empty_inv in H0. set_solver.
Qed.

Lemma len_pos_nonempty {A} (l : list A) : (0 < len l)%Z -> l <> [].
Proof. destruct l; [unfold len; simpl; lia | discriminate]. Qed.

Lemma truediv_ratio (a b : Z) s :
  (0 < b)%Z ->
  exists q, truediv a b s = (Ret q, s) /\ (q == inject_Z a / inject_Z b)%Q.
Proof.
  intros Hb. unfold truediv. destruct (Z.eqb_spec b 0) as [->|_]; [lia|].
  eexists. split; [reflexivity|].
  rewrite Qmake_Qdiv, Z2Pos.id by exact Hb. reflexivity.
Qed.

Lemma repetition_guard_truncated t s :
  exists evs, Forall is_diag evs /\
    repetition_guard t s = (Ret (truncated t), after s evs).
Proof.
  unfold repetition_guard, truncated.
  destruct (Z.ltb_spec 10 (len (split t))) as [Hlen|Hlen].
  - assert (Hu : (0 < unique_count (split t))%Z).
    { apply unique_count_pos, len_pos_nonempty. lia. }
    unfold ratio_of. case_bool_decide as Hempty.
    { unfold unique_count in Hu. rewrite Hempty, size_empty in Hu. lia. }
    destruct (truediv_ratio (len (split t)) (unique_count (split t)) s Hu) as (q & Hq & Heq).
    unfold bind at 1. unfold unique_count in Hq. rewrite Hq.
    destruct (Qlt_le_dec 3 q) as [Hr|Hr].
    + destruct (decide (ratio_exceeded (split t))) as [_|Hno].
      * unfold bind, print, flush, emit, ret, after. simpl. rewrite <- !app_assoc. simpl.
        unfold slice_to. destruct (Z.ltb_spec (Z.min 50 (len (split t) / 3)) 0) as [Hneg|_].
        { exfalso. assert (0 <= len (split t) / 3)%Z by (apply Z.div_pos; lia). lia. }
        eexists. split; [|reflexivity]. repeat constructor.
      * exfalso. apply Hno. split; [exact Hlen|]. rewrite <- Heq. exact Hr.
    + destruct (decide (ratio_exceeded (split t))) as [[_ Hyes]|_].
      * exfalso. rewrite <- Heq in Hyes. apply (Qlt_not_le _ _ Hyes Hr).
      * exists []. rewrite after_nil. split; [constructor | reflexivity].
  - destruct (decide (ratio_exceeded (split t))) as [[Hyes _]|_]; [lia|].
    exists []. rewrite after_nil. split; [constructor | reflexivity].
Qed.

(** ** From the segments to the final text *)

Lemma collect_text_final g s :
  exists evs, Forall is_loop_event evs /\
    collect_text g s = (final_text g, after s evs).
Proof.
  unfold collect_text, final_text, print, flush.
  unfold bind at 1. rewrite emit_after. unfold bind at 1. rewrite emit_after, after_after.
  destruct (for_segments_scan g loop_entry (after s ([Print stderr (Diag DebugProcessing)] ++ [Flush stderr])))
    as (evs & Hevs & _ & Hloop).
  unfold bind at 1. rewrite Hloop, after_after.
  destruct (scan g loop_entry) as [v|e].
  - unfold bind at 1. rewrite emit_after. unfold bind at 1. rewrite emit_after, !after_after.
    match goal with |- context [repetition_guard ?t ?st] =>
      destruct (repetition_guard_truncated t st) as (evs' & Hevs' & Hguard) end.
    rewrite Hguard, after_after. eexists. split; [|reflexivity].
    repeat (apply Forall_app; split); try (apply diag_loop_event; assumption); try assumption;
      repeat constructor; left; exact I.
  - eexists. split; [|reflexivity].
    repeat (apply Forall_app; split); try assumption; repeat constructor; left; exact I.
Qed.

(** ** The exact-repeat guard *)

(** What one iteration does to the repeat counter and to the remembered
    text, whatever the state of the loop. *)
Lemma loop_body_guard seg v s :
  exists fl v' evs,
    loop_body seg v s = (Ret (fl, v'), after s evs) /\
    Forall is_diag evs /\
    segments_processed v' = (segments_processed v + 1)%Z /\
    last_segment_text v' = strip (text seg) /\
    (if bool_decide (strip (text seg) = last_segment_text v)
     then repetition_count v' = (repetition_count v + 1)%Z /\
          fl = (if (4 <=? repetition_count v')%Z then Break else Next)
     else repetition_count v' = 0%Z /\ fl = Next) /\
    transcribed_text v' =
      match fl with
      | Break => transcribed_text v
      | Next =>
          if kept (strip (text seg))
          then transcribed_text v ++ strip (text seg) ++ py " "
          else transcribed_text v
      end.
Proof.
  destruct (loop_body_step seg v s) as (evs & Hevs & Hbody).
  destruct (loop_step (strip (text seg)) v) as [fl v'] eqn:Hstep.
  exists fl, v', evs. split; [exact Hbody|]. split; [exact Hevs|].
  unfold loop_step in Hstep.
  case_bool_decide as Heq.
  - destruct (4 <=? repetition_count v + 1)%Z eqn:Hfour;
      injection Hstep as <- <-; simpl; rewrite ?Hfour; auto.
  - injection Hstep as <- <-; simpl; auto.
Qed.

(** The loop compares with the remembered text where the specification
    compares with the preceding segment. *)
Lemma loop_step_preceding t v :
  loop_step t v = preceding_step (Some (last_segment_text v)) t v.
Proof.
  unfold loop_step, preceding_step.
  destruct (decide (t = last_segment_text v)) as [Heq|Hne].
  - rewrite !bool_decide_eq_true_2 by congruence. rewrite <- Heq. reflexivity.
  - rewrite !bool_decide_eq_false_2 by congruence. reflexivity.
Qed.

Lemma preceding_step_last previous t v :
  last_segment_text (snd (preceding_step previous t v)) = t.
Proof.
  unfold preceding_step. case_bool_decide; [|reflexivity].
  destruct (4 <=? repetition_count v + 1)%Z; reflexivity.
Qed.

Lemma scan_preceding g v : scan g v = preceding_scan (Some (last_segment_text v)) g v.
Proof.
  revert v. induction g as [|seg rest IH|e]; intros v; [reflexivity| |reflexivity].
  simpl. rewrite loop_step_preceding.
  pose proof (preceding_step_last (Some (last_segment_text v)) (strip (text seg)) v) as Hlast.
  destruct (preceding_step (Some (last_segment_text v)) (strip (text seg)) v) as [[] v'];
    [|reflexivity].
  simpl in Hlast. rewrite IH, Hlast. reflexivity.
Qed.

(** A first segment with a non-empty trimmed text is no repeat under either
    reading. *)
Lemma preceding_step_first t v :
  t <> [] -> preceding_step (Some []) t v = preceding_step None t v.
Proof.
  intros Ht. unfold preceding_step.
  rewrite !bool_decide_eq_false_2 by congruence. reflexivity.
Qed.

(** C1 (as amended).  Exact-repeat guard.  The text that a segment is
    compared with is the remembered text: the empty string at the first
    segment, and from then on the trimmed text of the immediately preceding
    segment.  In every iteration: when the trimmed text of the segment equals
    the remembered text, the counter grows by one, and the loop breaks
    exactly when the counter has reached 4, keeping the accumulated text;
    otherwise the counter is reset to 0.  A break ends the loop: whatever
    follows in the stream, the generator is not advanced again.  For a stream
    that starts with five segments "foo" the loop stops at the fifth segment
    (the fourth repeat), and the final text is "foo foo foo foo".  The whole
    loop is the loop of the specification run after an imagined segment with
    an empty trimmed text; it is the loop of the specification itself when
    the first segment has a non-empty trimmed text. *)
Theorem exact_repeat_guard (seg : segment) (rest : generator) (v : loop_vars) (s : state) :
  (exists fl v' evs,
      loop_body seg v (after s [Call NextSegment]) =
        (Ret (fl, v'), after (after s [Call NextSegment]) evs) /\
      last_segment_text v' = strip (text seg) /\
      (if bool_decide (strip (text seg) = last_segment_text v)
       then repetition_count v' = (repetition_count v + 1)%Z /\
            fl = (if (4 <=? repetition_count v')%Z then Break else Next)
       else repetition_count v' = 0%Z /\ fl = Next) /\
      (fl = Break ->
         transcribed_text v' = transcribed_text v /\
         for_segments (Yield seg rest) v s =
           (Ret v', after (after s [Call NextSegment]) evs) /\
         calls (Call NextSegment :: evs) = [NextSegment])) /\
  (exists evs,
      for_segments (five_foo rest) loop_entry s =
        (Ret {| transcribed_text := py "foo foo foo foo ";
                segments_processed := 5;
                last_segment_text := py "foo";
                repetition_count := 4 |}, after s evs) /\
      calls evs = repeat NextSegment 5) /\
  (exists evs,
      collect_text (five_foo rest) s = (Ret (py "foo foo foo foo"), after s evs)) /\
  occurrences (py "foo") (py "foo foo foo foo") = 4%nat /\
  last_segment_text loop_entry = [] /\
  repetition_count loop_entry = 0%Z /\
  (forall g : generator, exists evs,
      for_segments g loop_entry s = (preceding_scan (Some []) g loop_entry, after s evs) /\
      calls evs = repeat NextSegment (pulls g loop_entry)) /\
  (strip (text seg) <> [] ->
   exists evs,
     for_segments (Yield seg rest) loop_entry s =
       (preceding_scan None (Yield seg rest) loop_entry, after s evs)).
Proof.
  split; [|split; [|split; [|split; [|split; [|split; [|split]]]]]].
  - destruct (loop_body_guard seg v (after s [Call NextSegment]))
      as (fl & v' & evs & Hbody & Hevs & _ & Hlast & Hcount & Htext).
    exists fl, v', evs. split; [exact Hbody|]. split; [exact Hlast|].
    split; [exact Hcount|]. intros ->. split; [exact Htext|]. split.
    + simpl. unfold bind at 1. rewrite emit_after. unfold bind at 1.
      rewrite Hbody. reflexivity.
    + simpl. rewrite (diag_calls evs Hevs). reflexivity.
  - destruct (for_segments_scan (five_foo rest) loop_entry s) as (evs & _ & Hcalls & Hrun).
    exists evs. split; [exact Hrun | exact Hcalls].
  - destruct (collect_text_final (five_foo rest) s) as (evs & _ & Hrun).
    exists evs. exact Hrun.
  - reflexivity.
  - reflexivity.
  - reflexivity.
  - intros g. destruct (for_segments_scan g loop_entry s) as (evs & _ & Hcalls & Hrun).
    exists evs. split; [|exact Hcalls]. rewrite Hrun, scan_preceding. reflexivity.
  - intros Hseg.
    destruct (for_segments_scan (Yield seg rest) loop_entry s) as (evs & _ & _ & Hrun).
    exists evs. rewrite Hrun, scan_preceding.
    change (last_segment_text loop_entry) with (@nil N).
    cbn [preceding_scan]. rewrite (preceding_step_first _ _ Hseg). reflexivity.
Qed.

(** The claim as worded against the loop: after four leading segments of
    white space the loop has stopped with an empty text, where a comparison
    with the immediately preceding segment counts three repeats only and
    goes on to the speech. *)
Lemma exact_repeat_guard_counterexample :
  (exists evs,
     for_segments blank_start loop_entry initial =
       (Ret {| transcribed_text := [];
               segments_processed := 4;
               last_segment_text := [];
               repetition_count := 4 |}, after initial evs) /\
     calls evs = repeat NextSegment 4) /\
  (exists evs, collect_text blank_start initial = (Ret [], after initial evs)) /\
  preceding_scan None blank_start loop_entry =
    Ret {| transcribed_text := py "hello world ";
           segments_processed := 5;
           last_segment_text := py "hello world";
           repetition_count := 0 |}.
Proof.
  split; [|split].
  - destruct (for_segments_scan blank_start loop_entry initial) as (evs & _ & Hcalls & Hrun).
    exists evs. split; [exact Hrun | exact Hcalls].
  - destruct (collect_text_final blank_start initial) as (evs & _ & Hrun).
    exists evs. exact Hrun.
  - vm_compute. reflexivity.
Qed.

(** ** The segment filter and the trimming *)

Lemma kept_short t : kept t = false <-> t = [] \/ (len t <= 2)%Z.
Proof.
  unfold kept, truthy, len. destruct t as [|c t]; simpl.
  - split; [intros _; left; reflexivity | intros _; reflexivity].
  - destruct (Z.ltb_spec 2 (Z.of_nat (S (length t)))) as [H|H]; split.
    + discriminate.
    + intros [Hnil|Hle]; [discriminate | lia].
    + intros _. right. exact H.
    + intros _. reflexivity.
Qed.

Lemma truncated_strip t : strip t = t -> strip (truncated t) = truncated t.
Proof.
  intros Ht. unfold truncated.
  destruct (decide (ratio_exceeded (split t))); [|exact Ht].
  apply join_words_strip. apply Forall_take. apply split_words.
Qed.

(** C7.  A segment whose trimmed text is empty or at most 2 characters long
    leaves the accumulated text as it is; every other segment that the loop
    does not break on appends its trimmed text and one space.  When the loop
    ends normally the accumulated text is, in order, the kept texts of the
    segments consumed before any break, each followed by a space; the loop
    fails only with the exception of the generator.  The text that leaves
    lines 102-118 has no whitespace at either end. *)
Theorem segment_filter_and_trim (seg : segment) (g : generator) (v : loop_vars) (s : state) :
  (kept (strip (text seg)) = false <->
     strip (text seg) = [] \/ (len (strip (text seg)) <= 2)%Z) /\
  (exists fl v' evs,
      loop_body seg v s = (Ret (fl, v'), after s evs) /\
      transcribed_text v' =
        if kept (strip (text seg))
        then match fl with
             | Next => transcribed_text v ++ strip (text seg) ++ py " "
             | Break => transcribed_text v
             end
        else transcribed_text v) /\
  (exists evs,
      match scan g loop_entry with
      | Ret v' =>
          for_segments g loop_entry s = (Ret v', after s evs) /\
          exists k : nat,
            segments_processed v' =
              (Z.of_nat k + (if (4 <=? repetition_count v')%Z then 1 else 0))%Z /\
            (k <= length (yielded g))%nat /\
            transcribed_text v' =
              appended (List.map (fun x => strip (text x)) (take k (yielded g)))
      | Raise e =>
          for_segments g loop_entry s = (Raise e, after s evs) /\ failure g = Some e
      end) /\
  (exists evs,
      match final_text g with
      | Ret txt =>
          collect_text g s = (Ret txt, after s evs) /\ strip txt = txt /\
          exists v', scan g loop_entry = Ret v' /\
                     txt = truncated (strip (transcribed_text v'))
      | Raise e => collect_text g s = (Raise e, after s evs) /\ failure g = Some e
      end).
Proof.
  split; [apply kept_short|]. split; [|split].
  - destruct (loop_body_guard seg v s) as (fl & v' & evs & Hbody & _ & _ & _ & _ & Htext).
    exists fl, v', evs. split; [exact Hbody|]. rewrite Htext.
    destruct fl, (kept (strip (text seg))); reflexivity.
  - destruct (for_segments_scan g loop_entry s) as (evs & _ & _ & Hrun).
    exists evs. destruct (scan g loop_entry) as [v'|e] eqn:Hscan.
    + split; [exact Hrun|].
      destruct (scan_text g loop_entry v' Hscan) as (k & Hp & Hk & Ht); [simpl; lia|].
      exists k. simpl in Hp, Ht. auto.
    + split; [exact Hrun|]. eapply scan_raise. exact Hscan.
  - destruct (collect_text_final g s) as (evs & _ & Hrun).
    exists evs. unfold final_text in *.
    destruct (scan g loop_entry) as [v'|e] eqn:Hscan.
    + split; [exact Hrun|]. split.
      * apply truncated_strip. apply strip_idem.
      * exists v'. split; reflexivity.
    + split; [exact Hrun|]. eapply scan_raise. exact Hscan.
Qed.

(** ** Leading empty segments *)

(** C9.  The remembered text starts as the empty string and an iteration
    changes it only when the segment is not a repeat.  So when the first four
    segments all have an empty trimmed text, each counts as a repeat, the loop
    breaks at the fourth, the generator is advanced four times only, and the
    final text is empty whatever follows in the stream. *)
Theorem leading_empty_segments (s1 s2 s3 s4 : segment) (rest : generator) (s : state)
    (seg : segment) (v : loop_vars) :
  strip (text s1) = [] -> strip (text s2) = [] ->
  strip (text s3) = [] -> strip (text s4) = [] ->
  last_segment_text loop_entry = [] /\
  (exists fl v' evs,
      loop_body seg v s = (Ret (fl, v'), after s evs) /\
      last_segment_text v' =
        if bool_decide (strip (text seg) = last_segment_text v)
        then last_segment_text v else strip (text seg)) /\
  (exists evs,
      for_segments (four_then s1 s2 s3 s4 rest) loop_entry s =
        (Ret {| transcribed_text := [];
                segments_processed := 4;
                last_segment_text := [];
                repetition_count := 4 |}, after s evs) /\
      calls evs = repeat NextSegment 4) /\
  (exists evs,
      collect_text (four_then s1 s2 s3 s4 rest) s = (Ret [], after s evs)).
Proof.
  intros H1 H2 H3 H4.
  assert (Hscan : scan (four_then s1 s2 s3 s4 rest) loop_entry =
                  Ret {| transcribed_text := []; segments_processed := 4;
                         last_segment_text := []; repetition_count := 4 |}).
  { simpl. rewrite H1. simpl. rewrite H2. simpl. rewrite H3. simpl. rewrite H4. reflexivity. }
  assert (Hpulls : pulls (four_then s1 s2 s3 s4 rest) loop_entry = 4%nat).
  { simpl. rewrite H1. simpl. rewrite H2. simpl. rewrite H3. simpl. rewrite H4. reflexivity. }
  split; [reflexivity|]. split; [|split].
  - destruct (loop_body_guard seg v s) as (fl & v' & evs & Hbody & _ & _ & Hlast & _ & _).
    exists fl, v', evs. split; [exact Hbody|].
    case_bool_decide as Heq; congruence.
  - destruct (for_segments_scan (four_then s1 s2 s3 s4 rest) loop_entry s)
      as (evs & _ & Hcalls & Hrun).
    exists evs. rewrite Hscan in Hrun. rewrite Hpulls in Hcalls. split; assumption.
  - destruct (collect_text_final (four_then s1 s2 s3 s4 rest) s) as (evs & _ & Hrun).
    exists evs. unfold final_text in Hrun. rewrite Hscan in Hrun. exact Hrun.
Qed.

Lemma leading_empty_segments_witness :
  exists evs,
    collect_text
      (four_then {| text := py "  " |} {| text := [] |} {| text := py " " |} {| text := [] |}
         (Yield {| text := py "hello world" |} (Fails KeyboardInterrupt)))
      initial = (Ret [], after initial evs).
Proof.
  apply (leading_empty_segments
           {| text := py "  " |} {| text := [] |} {| text := py " " |} {| text := [] |}
           (Yield {| text := py "hello world" |} (Fails KeyboardInterrupt))
           initial {| text := py "foo" |} loop_entry);
    reflexivity.
Defined.

(** ** Splitting what was joined *)

Lemma split_from_word word w s :
  Forall (fun c => isspace c = false) w ->
  split_from word (w ++ s) = split_from (word ++ w) s.
Proof.
  revert word. induction w as [|c w IH]; intros word Hw; simpl.
  - rewrite app_nil_r. reflexivity.
  - apply Forall_cons in Hw as [Hc Hw]. rewrite Hc, IH by exact Hw.
    rewrite <- app_assoc. reflexivity.
Qed.

Lemma split_join ws : Forall is_word ws -> split (join (py " ") ws) = ws.
Proof.
  induction 1 as [|w ws [Hne Hw] Hws IH]; [reflexivity|].
  destruct ws as [|w' ws].
  - pose proof (split_from_word [] w [] Hw) as Hsplit.
    rewrite app_nil_r in Hsplit. simpl in Hsplit. unfold split. simpl. rewrite Hsplit.
    destruct w; [congruence | reflexivity].
  - change (join (py " ") (w :: w' :: ws)) with (w ++ py " " ++ join (py " ") (w' :: ws)).
    unfold split. rewrite split_from_word by exact Hw. simpl.
    destruct w; [congruence|]. f_equal. exact IH.
Qed.

(** ** The global repetition-ratio guard *)

Lemma ratio_exceeded_int words :
  ratio_exceeded words <-> (10 < len words)%Z /\ (3 * unique_count words < len words)%Z.
Proof.
  unfold ratio_exceeded.
  enough (H : (10 < len words)%Z ->
              ((3 < inject_Z (len words) / inject_Z (unique_count words))%Q <->
               (3 * unique_count words < len words)%Z)) by tauto.
  intros Hlen.
  assert (Hu : (0 < unique_count words)%Z).
  { apply unique_count_pos, len_pos_nonempty. lia. }
  destruct (unique_count words) as [|u|u]; try lia.
  unfold Qlt, Qdiv, Qmult, Qinv, inject_Z. simpl. lia.
Qed.

(** C2.  Global repetition ratio guard.  The guard always returns, writing
    diagnostics on the error stream only.  With [words] the
    whitespace-delimited words of the text: when there are more than 10 words
    and the word count divided by the unique-word count exceeds 3, the text
    becomes the first [min(50, word_count // 3)] words joined by single
    spaces, which is a text of exactly that many words; otherwise the text is
    unchanged.  The guard is applied to the text that the segment loop has
    accumulated, trimmed: when the loop over a stream ends with the local
    variables [v], what lines 72-118 return for that stream is the trimmed
    accumulated text cut in this way, or left as it is; when the loop fails,
    so do these lines. *)
Theorem repetition_ratio_guard (t : str) (s : state) :
  let words := split t in
  let first := Z.min 50 (len words / 3) in
  (exists t' evs,
     repetition_guard t s = (Ret t', after s evs) /\
     Forall is_diag evs /\
     (ratio_exceeded words <->
        (10 < len words)%Z /\ (3 * unique_count words < len words)%Z) /\
     (ratio_exceeded words ->
        t' = join (py " ") (take (Z.to_nat first) words) /\
        split t' = take (Z.to_nat first) words /\
        len (split t') = first /\
        (len (split t') < len words)%Z) /\
     (~ ratio_exceeded words -> t' = t)) /\
  (forall (segments : generator) (v : loop_vars) (s0 : state),
     fst (for_segments segments loop_entry s0) = Ret v ->
     t = strip (transcribed_text v) ->
     exists t' evs,
       collect_text segments s = (Ret t', after s evs) /\
       Forall is_loop_event evs /\
       (ratio_exceeded words -> t' = join (py " ") (take (Z.to_nat first) words)) /\
       (~ ratio_exceeded words -> t' = t)) /\
  (forall (segments : generator) (e : exn) (s0 : state),
     fst (for_segments segments loop_entry s0) = Raise e ->
     exists evs, collect_text segments s = (Raise e, after s evs)).
Proof.
  intros words first. split; [|split].
  - destruct (repetition_guard_truncated t s) as (evs & Hevs & Hrun).
    exists (truncated t), evs. split; [exact Hrun|]. split; [exact Hevs|].
    split; [apply ratio_exceeded_int|].
    unfold truncated. fold words. fold first.
    destruct (decide (ratio_exceeded words)) as [Hyes|Hno].
    + split; [|intros Hno; contradiction]. intros _.
      assert (Hsplit : split (join (py " ") (take (Z.to_nat first) words)) =
                       take (Z.to_nat first) words).
      { apply split_join, Forall_take, split_words. }
      split; [reflexivity|]. split; [exact Hsplit|].
      destruct Hyes as [Hlen _]. rewrite Hsplit. unfold len in *. rewrite length_take.
      assert (0 <= Z.of_nat (length words) / 3 < Z.of_nat (length words))%Z.
      { split; [apply Z.div_pos; lia | apply Z.div_lt_upper_bound; lia]. }
      subst first. unfold len. lia.
    + split; [intros Hyes; contradiction|]. intros _. reflexivity.
  - intros g v s0 Hloop Ht.
    destruct (for_segments_scan g loop_entry s0) as (evs0 & _ & _ & Hscan).
    rewrite Hscan in Hloop. simpl in Hloop.
    destruct (collect_text_final g s) as (evs & Hevs & Hrun).
    unfold final_text in Hrun. rewrite Hloop, <- Ht in Hrun.
    exists (truncated t), evs. split; [exact Hrun|]. split; [exact Hevs|].
    unfold truncated. fold words. fold first.
    destruct (decide (ratio_exceeded words)) as [Hyes|Hno].
    + split; [reflexivity | intros Hno; contradiction].
    + split; [intros Hyes; contradiction | reflexivity].
  - intros g e s0 Hloop.
    destruct (for_segments_scan g loop_entry s0) as (evs0 & _ & _ & Hscan).
    rewrite Hscan in Hloop. simpl in Hloop.
    destruct (collect_text_final g s) as (evs & _ & Hrun).
    unfold final_text in Hrun. rewrite Hloop in Hrun.
    exists evs. exact Hrun.
Qed.

(** Forty words of a looping stream come back as their first thirteen. *)
Lemma repetition_ratio_guard_witness :
  len (split (strip looping_accumulated)) = 40%Z /\
  exists evs,
    collect_text looping_stream initial =
      (Ret (py "so the thing is the thing is so so the thing is the"), after initial evs).
Proof.
  split; [vm_compute; reflexivity|].
  destruct (repetition_ratio_guard
              (strip looping_accumulated)
              initial)
    as (_ & Hstream & _).
  destruct (Hstream looping_stream
              {| transcribed_text := looping_accumulated;
                 segments_processed := 10;
                 last_segment_text := py "the thing is so";
                 repetition_count := 0 |}
              initial)
    as (t' & evs & Hrun & _ & Hyes & _); [vm_compute; reflexivity | reflexivity |].
  exists evs. rewrite Hrun. f_equal. f_equal. rewrite Hyes; [vm_compute; reflexivity|].
  apply ratio_exceeded_int. vm_compute. split; reflexivity.
Defined.

(** ** The division of the ratio *)

(** C10.  The ratio is never a division by zero.  True division raises on a
    zero divisor, but: the guard as a whole never raises; line 111 answers 0
    without dividing when the set of unique words is empty, and divides by a
    non-zero size otherwise; and more than 10 words always give a non-empty
    set of unique words. *)
Theorem ratio_division_safe (t : str) (words : list str) (unique_words : gset str)
    (a : Z) (s : state) :
  (exists e, truediv a 0 s = (Raise e, s)) /\
  (exists t' evs, repetition_guard t s = (Ret t', after s evs)) /\
  (exists q, ratio_of words unique_words s = (Ret q, s) /\
             (unique_words = ∅ -> q = 0%Q) /\
             (unique_words <> ∅ ->
                size unique_words <> 0%nat /\
                truediv (len words) (Z.of_nat (size unique_words)) s = (Ret q, s))) /\
  ((10 < len words)%Z ->
     (list_to_set words : gset str) <> ∅ /\ (0 < unique_count words)%Z).
Proof.
  split; [|split; [|split]].
  - eexists. reflexivity.
  - destruct (repetition_guard_truncated t s) as (evs & _ & Hrun). eauto.
  - unfold ratio_of. case_bool_decide as Hempty.
    + exists 0%Q. split; [reflexivity|]. split; [reflexivity | contradiction].
    + assert (Hsize : size unique_words <> 0%nat).
      { intros H0. apply Hempty. apply leibniz_equiv. apply size_empty_inv. exact H0. }
      unfold truediv. destruct (Z.eqb_spec (Z.of_nat (size unique_words)) 0) as [H0|_]; [lia|].
      eexists. split; [reflexivity|]. split; [contradiction|]. intros _.
      split; [exact Hsize | reflexivity].
  - intros Hlen.
    assert (Hpos : (0 < unique_count words)%Z).
    { apply unique_count_pos, len_pos_nonempty. lia. }
    split; [|exact Hpos].
    intros Hempty. unfold unique_count in Hpos. rewrite Hempty, size_empty in Hpos. lia.
Qed.

(** ** The driver without its diagnostics *)

Lemma loop_work_event evs : Forall is_loop_event evs -> Forall is_work_event evs.
Proof.
  intros H. eapply Forall_impl; [exact H|].
  intros e [He | ->]; [left; exact He | right; eexists; reflexivity].
Qed.

Lemma work_printed_stdout evs : Forall is_work_event evs -> printed stdout evs = [].
Proof.
  induction 1 as [|e evs He _ IH]; [reflexivity|].
  destruct He as [He | [c ->]]; [|exact IH].
  destruct e as [[] []| []|]; simpl in *; solve [exact IH | contradiction].
Qed.

Lemma loop_calls_ok w audio_file_path model_size evs :
  Forall is_loop_event evs -> Forall (call_ok w audio_file_path model_size) (calls evs).
Proof.
  induction 1 as [|e evs He _ IH]; [constructor|].
  destruct He as [He | ->]; [|constructor; [exact I | exact IH]].
  destruct e as [[] []| []|]; simpl in *; solve [exact IH | contradiction].
Qed.

Ltac run_monad :=
  unfold try_body, invoke, now, print, flush, emit, bind, ret, raise, initial, after; simpl.

Ltac work_events :=
  repeat (apply List.Forall_cons; [first [left; exact I | right; eexists; reflexivity]|]);
  apply List.Forall_nil.

Ltac calls_ok c :=
  repeat (apply List.Forall_cons;
          [first [exact I | exists c; repeat split; reflexivity]|]);
  apply List.Forall_nil.

Ltac failed_early :=
  run_monad; eexists;
  (split; [|split; [reflexivity|split; [rewrite app_nil_r; reflexivity
                                       |split; [reflexivity|]]]]);
  [work_events | repeat (apply List.Forall_cons; [exact I|]); apply List.Forall_nil].

Lemma try_body_run w audio_file_path model_size :
  exists evs,
    Forall is_work_event evs /\
    fst (try_body w audio_file_path model_size initial) =
      match try_result w audio_file_path model_size with
      | Ret _ => Ret tt
      | Raise e => Raise e
      end /\
    trace (snd (try_body w audio_file_path model_size initial)) =
      evs ++ match try_result w audio_file_path model_size with
             | Ret j => [Print stdout (Json j)]
             | Raise _ => []
             end /\
    head evs = Some (Call ImportFasterWhisper) /\
    Forall (call_ok w audio_file_path model_size) (calls evs).
Proof.
  unfold try_result.
  destruct w as [ifw it cuda wm tr clk]; simpl.
  destruct ifw as [[]|e1]; [|failed_early].
  destruct it as [[]|e2]; [|failed_early].
  destruct cuda as [c|e3]; [|failed_early].
  destruct wm as [[]|e4].
  2:{ run_monad. eexists.
      split; [|split; [reflexivity|split; [rewrite app_nil_r; reflexivity
                                          |split; [reflexivity|]]]];
        [work_events | calls_ok c]. }
  destruct tr as [[g info]|e5].
  2:{ run_monad. exists (setup_events c audio_file_path model_size).
      split; [unfold setup_events; work_events|]. split; [reflexivity|].
      split; [destruct c; rewrite app_nil_r; reflexivity|].
      split; [reflexivity|]. simpl. calls_ok c. }
  run_monad.
  match goal with |- context [collect_text g ?st] =>
    destruct (collect_text_final g st) as (evs & Hevs & Hrun) end.
  rewrite !Hrun. unfold after. simpl. clear Hrun.
  exists (setup_events c audio_file_path model_size ++ evs).
  split; [|split; [|split; [|split]]].
  - apply Forall_app. split; [|apply loop_work_event; exact Hevs].
    unfold setup_events. work_events.
  - destruct (final_text g); reflexivity.
  - destruct (final_text g), c; simpl; rewrite <- ?app_assoc, ?app_nil_r; reflexivity.
  - reflexivity.
  - rewrite calls_app. apply Forall_app. split.
    + simpl. calls_ok c.
    + apply loop_calls_ok. exact Hevs.
Qed.

(** ** Whole invocations *)

Lemma run_script_usage w argv :
  (len argv < 2)%Z \/ (3 < len argv)%Z ->
  run_script w argv = {| ending := Exit 1; events := [Print stdout (Json usage_record)] |}.
Proof.
  intros Hlen. unfold run_script, main.
  assert (Hcond : (len argv <? 2)%Z || (3 <? len argv)%Z = true).
  { apply orb_true_iff. rewrite Z.ltb_lt, Z.ltb_lt. exact Hlen. }
  rewrite Hcond. reflexivity.
Qed.

Lemma run_script_accepted w prog audio_file_path optional :
  (length optional <= 1)%nat ->
  exists evs,
    Forall is_work_event evs /\
    head evs = Some (Call ImportFasterWhisper) /\
    Forall (call_ok w audio_file_path (model_size_of optional)) (calls evs) /\
    run_script w (prog :: audio_file_path :: optional) =
      run_of_result (try_result w audio_file_path (model_size_of optional))
        audio_file_path evs.
Proof.
  intros Hlen.
  destruct (try_body_run w audio_file_path (model_size_of optional))
    as (evs & Hevs & Hfst & Hsnd & Hhead & Hcalls).
  exists evs. split; [exact Hevs|]. split; [exact Hhead|]. split; [exact Hcalls|].
  assert (Hmain : main w (prog :: audio_file_path :: optional) initial =
                  try_except (try_body w audio_file_path (model_size_of optional))
                    (fun e => print stdout (Json (dependency_record e)) ;; sys_exit 1)
                    (fun e => print stdout (Json (failure_record e audio_file_path)) ;;
                              sys_exit 1) initial).
  { destruct optional as [|m [|m' optional]]; [reflexivity | reflexivity | simpl in Hlen; lia]. }
  unfold run_script. rewrite Hmain. unfold try_except.
  destruct (try_body w audio_file_path (model_size_of optional) initial) as [r s'].
  simpl in Hfst, Hsnd. unfold run_of_result.
  destruct (try_result w audio_file_path (model_size_of optional)) as [j|e]; subst r.
  - rewrite Hsnd. reflexivity.
  - rewrite app_nil_r in Hsnd.
    destruct e as [m|m|code|]; simpl; unfold bind, print, emit, sys_exit, raise; simpl;
      rewrite Hsnd; reflexivity.
Qed.

(** Every argument list is refused by line 15 or has the program name, the
    audio path and at most one more argument. *)
Lemma argv_cases (argv : list str) :
  ((len argv < 2)%Z \/ (3 < len argv)%Z) \/
  exists prog audio_file_path optional,
    argv = prog :: audio_file_path :: optional /\ (length optional <= 1)%nat.
Proof.
  destruct argv as [|prog [|audio_file_path optional]].
  - left. left. unfold len. simpl. lia.
  - left. left. unfold len. simpl. lia.
  - destruct (le_gt_dec (length optional) 1) as [Hle|Hgt].
    + right. exists prog, audio_file_path, optional. split; [reflexivity | exact Hle].
    + left. right. unfold len. simpl length. lia.
Qed.

(** ** Truncation of elapsed times *)

Lemma py_int_floor q : (0 <= q)%Q -> py_int q = Qfloor q.
Proof.
  destruct q as [n d]. unfold Qle, py_int, Qfloor. simpl. intros Hn.
  apply Z.quot_div_nonneg; lia.
Qed.

Lemma py_int_nonneg q : (0 <= q)%Q -> (0 <= py_int q)%Z.
Proof.
  intros Hq. rewrite py_int_floor by exact Hq.
  change 0%Z with (Qfloor 0). apply Qfloor_resp_le. exact Hq.
Qed.

Lemma py_int_mono a b : (0 <= a)%Q -> (a <= b)%Q -> (py_int a <= py_int b)%Z.
Proof.
  intros Ha Hab. rewrite !py_int_floor by (try exact Ha; eapply Qle_trans; eassumption).
  apply Qfloor_resp_le. exact Hab.
Qed.

(** ** Rounding to binary64 *)

Section Rounding.

Local Open Scope Q_scope.

Lemma rne_floor x : (Qfloor x <= rne x <= Qfloor x + 1)%Z.
Proof.
  unfold rne. destruct (Qcompare (x - inject_Z (Qfloor x)) (1 # 2)); [|lia|lia].
  destruct (Z.even (Qfloor x)); lia.
Qed.

Lemma rne_Z n : rne (inject_Z n) = n.
Proof.
  unfold rne. rewrite Qfloor_Z.
  destruct (Qcompare (inject_Z n - inject_Z n) (1 # 2)) eqn:E; [|reflexivity|].
  - apply (proj2 (Qeq_alt _ _)) in E. exfalso. lra.
  - apply (proj2 (Qgt_alt _ _)) in E. exfalso. lra.
Qed.

Lemma rne_mono x y : x <= y -> (rne x <= rne y)%Z.
Proof.
  intros Hxy. pose proof (Qfloor_resp_le x y Hxy) as Hf.
  pose proof (rne_floor x) as Hx. pose proof (rne_floor y) as Hy.
  destruct (Z.eq_dec (Qfloor x) (Qfloor y)) as [Heq|Hne]; [|lia].
  unfold rne in *. rewrite <- Heq in *.
  destruct (Qcompare (x - inject_Z (Qfloor x)) (1 # 2)) eqn:Hcx;
    destruct (Qcompare (y - inject_Z (Qfloor x)) (1 # 2)) eqn:Hcy;
    try (destruct (Z.even (Qfloor x))); try lia;
    first [apply (proj2 (Qeq_alt _ _)) in Hcx | apply (proj2 (Qlt_alt _ _)) in Hcx
          | apply (proj2 (Qgt_alt _ _)) in Hcx];
    first [apply (proj2 (Qeq_alt _ _)) in Hcy | apply (proj2 (Qlt_alt _ _)) in Hcy
          | apply (proj2 (Qgt_alt _ _)) in Hcy];
    exfalso; lra.
Qed.

Lemma rne_ge n x : inject_Z n <= x -> (n <= rne x)%Z.
Proof. intros H. rewrite <- (rne_Z n). apply rne_mono. exact H. Qed.

Lemma rne_le n x : x <= inject_Z n -> (rne x <= n)%Z.
Proof. intros H. rewrite <- (rne_Z n). apply rne_mono. exact H. Qed.

Lemma pow2_pos k : 0 < 2 ^ k.
Proof. apply Qpower_0_lt. reflexivity. Qed.

Lemma pow2_Z n : (0 <= n)%Z -> inject_Z (2 ^ n) == 2 ^ n.
Proof. intros H. rewrite Zpower_Qpower by exact H. reflexivity. Qed.

Lemma pow2_plus a b : 2 ^ (a + b) == 2 ^ a * 2 ^ b.
Proof. apply Qpower_plus. discriminate. Qed.

Lemma pow2_le a b : (a <= b)%Z -> 2 ^ a <= 2 ^ b.
Proof. intros H. apply Qpower_le_compat_l; [exact H | discriminate]. Qed.

Lemma ilog2_spec x : 0 < x -> 2 ^ ilog2 x <= x /\ x < 2 ^ (ilog2 x + 1).
Proof.
  intros Hx. destruct x as [n d]. unfold ilog2. cbn [Qnum Qden].
  assert (Hn : (0 < n)%Z) by (unfold Qlt in Hx; simpl in Hx; lia).
  pose proof (Z.log2_spec n Hn) as [Hn1 Hn2].
  pose proof (Z.log2_spec (Z.pos d) (Pos2Z.is_pos d)) as [Hd1 Hd2].
  pose proof (Z.log2_nonneg n) as Hln. pose proof (Z.log2_nonneg (Z.pos d)) as Hld.
  set (ln := Z.log2 n) in *. set (ld := Z.log2 (Z.pos d)) in *.
  assert (Hup : n # d < 2 ^ (ln - ld + 1)).
  { replace (ln - ld + 1)%Z with ((ln + 1) + - ld)%Z by lia.
    rewrite pow2_plus, Qpower_opp, <- !pow2_Z by lia.
    apply Qlt_shift_div_l.
    - rewrite <- (Zlt_Qlt 0). lia.
    - unfold Qlt, Qmult, inject_Z. simpl. nia. }
  assert (Hlo : 2 ^ (ln - ld - 1) <= n # d).
  { replace (ln - ld - 1)%Z with (ln + - (ld + 1))%Z by lia.
    rewrite pow2_plus, Qpower_opp, <- !pow2_Z by lia.
    apply Qle_shift_div_r.
    - rewrite <- (Zlt_Qlt 0). lia.
    - unfold Qle, Qmult, inject_Z. simpl. nia. }
  destruct (Qle_bool (2 ^ (ln - ld)) (n # d)) eqn:Hb.
  - apply Qle_bool_iff in Hb. split; assumption.
  - split; [exact Hlo|]. replace (ln - ld - 1 + 1)%Z with (ln - ld)%Z by lia.
    apply Qnot_le_lt. intros H. apply Qle_bool_iff in H. congruence.
Qed.

Lemma ilog2_mono x y : 0 < x -> x <= y -> (ilog2 x <= ilog2 y)%Z.
Proof.
  intros Hx Hxy.
  destruct (ilog2_spec x Hx) as [Hx1 _].
  destruct (ilog2_spec y) as [_ Hy2]; [lra|].
  assert (H : 2 ^ ilog2 x < 2 ^ (ilog2 y + 1)) by lra.
  apply Qpower_lt_compat_l_inv in H; [lia | reflexivity].
Qed.

Lemma round_to_nonneg k x : 0 <= x -> 0 <= round_to k x.
Proof.
  intros Hx. unfold round_to. pose proof (pow2_pos k) as Hk.
  apply Qmult_le_0_compat; [|lra].
  change 0 with (inject_Z 0). rewrite <- Zle_Qle. apply rne_ge.
  apply Qle_shift_div_l; [exact Hk|]. change (inject_Z 0) with 0. lra.
Qed.

Lemma round_to_mono k x y : x <= y -> round_to k x <= round_to k y.
Proof.
  intros Hxy. unfold round_to. pose proof (pow2_pos k) as Hk.
  apply Qmult_le_compat_r; [|lra].
  rewrite <- Zle_Qle. apply rne_mono.
  apply Qmult_le_compat_r; [exact Hxy|]. apply Qlt_le_weak, Qinv_lt_0_compat, Hk.
Qed.

Lemma round_pos_mono x y :
  0 < x -> x <= y -> round_to (exponent64 x) x <= round_to (exponent64 y) y.
Proof.
  intros Hx Hxy. assert (Hy : 0 < y) by lra.
  pose proof (ilog2_mono x y Hx Hxy) as He.
  destruct (ilog2_spec x Hx) as [_ Hx2]. destruct (ilog2_spec y Hy) as [Hy1 _].
  unfold exponent64.
  destruct (Z.eq_dec (Z.max (ilog2 x - 52) (-1074)) (Z.max (ilog2 y - 52) (-1074)))
    as [Heq|Hne].
  { rewrite Heq. apply round_to_mono. exact Hxy. }
  assert (Hky : Z.max (ilog2 y - 52) (-1074) = (ilog2 y - 52)%Z) by lia.
  assert (Hlt : (ilog2 x + 1 <= ilog2 y)%Z) by lia.
  rewrite Hky.
  set (kx := Z.max (ilog2 x - 52) (-1074)) in *.
  set (ky := (ilog2 y - 52)%Z) in *.
  assert (Hkx : (kx < ky)%Z) by lia.
  pose proof (pow2_pos kx) as Pkx. pose proof (pow2_pos ky) as Pky.
  apply Qle_trans with (2 ^ ilog2 y).
  - unfold round_to.
    assert (E : 2 ^ ilog2 y == 2 ^ (ilog2 y - kx) * 2 ^ kx).
    { rewrite <- pow2_plus. replace (ilog2 y - kx + kx)%Z with (ilog2 y) by lia.
      reflexivity. }
    assert (Hn : inject_Z (rne (x / 2 ^ kx)) <= 2 ^ (ilog2 y - kx)).
    { pose proof (pow2_Z (ilog2 y - kx) ltac:(lia)) as EZ.
      assert (Hz : (rne (x / 2 ^ kx) <= 2 ^ (ilog2 y - kx))%Z).
      { apply rne_le. apply Qle_shift_div_r; [exact Pkx|].
        assert (EM : inject_Z (2 ^ (ilog2 y - kx)) * 2 ^ kx
                     == 2 ^ (ilog2 y - kx) * 2 ^ kx)
          by (apply Qmult_comp; [exact EZ | reflexivity]).
        pose proof (pow2_le (ilog2 x + 1) (ilog2 y) Hlt). lra. }
      rewrite Zle_Qle in Hz. lra. }
    apply (Qmult_le_compat_r _ _ (2 ^ kx)) in Hn; lra.
  - unfold round_to.
    assert (E : 2 ^ ilog2 y == 2 ^ 52 * 2 ^ ky).
    { rewrite <- pow2_plus. unfold ky. replace (52 + (ilog2 y - 52))%Z with (ilog2 y) by lia.
      reflexivity. }
    assert (Hn : 2 ^ 52 <= inject_Z (rne (y / 2 ^ ky))).
    { pose proof (pow2_Z 52 ltac:(lia)) as EZ.
      assert (Hz : (2 ^ 52 <= rne (y / 2 ^ ky))%Z).
      { apply rne_ge. apply Qle_shift_div_l; [exact Pky|].
        assert (EM : inject_Z (2 ^ 52) * 2 ^ ky == 2 ^ 52 * 2 ^ ky)
          by (apply Qmult_comp; [exact EZ | reflexivity]).
        lra. }
      rewrite Zle_Qle in Hz. lra. }
    apply (Qmult_le_compat_r _ _ (2 ^ ky)) in Hn; lra.
Qed.

Lemma Qnum_sign x :
  match Qnum x with
  | Z0 => x == 0
  | Zpos _ => 0 < x
  | Zneg _ => x < 0
  end.
Proof. destruct x as [[|p|p] d]; unfold Qeq, Qlt; simpl; try reflexivity; lia. Qed.

Lemma round64_mono x y : x <= y -> round64 x <= round64 y.
Proof.
  intros Hxy. unfold round64.
  pose proof (Qnum_sign x) as Hsx. pose proof (Qnum_sign y) as Hsy.
  pose proof (Qnum_sign (- x)) as Hnx. pose proof (Qnum_sign (- y)) as Hny.
  destruct (Qnum x) eqn:Ex; destruct (Qnum y) eqn:Ey; try (exfalso; lra).
  - apply Qle_refl.
  - apply round_to_nonneg. lra.
  - apply round_pos_mono; assumption.
  - assert (H := round_to_nonneg (exponent64 (- x)) (- x)). lra.
  - assert (H := round_to_nonneg (exponent64 (- x)) (- x)).
    assert (H' := round_to_nonneg (exponent64 y) y). lra.
  - assert (H := round_pos_mono (- y) (- x)). lra.
Qed.

Lemma round64_zero : round64 0 = 0.
Proof. reflexivity. Qed.

(** Values of the rounding, as binary64 has them: the numbers nearest to
    0.1 and to 1.117, two ties above [2^53], the smallest subnormal number
    and a tie below it; and an elapsed time of lines 135-137. *)
Lemma round64_values :
  round64 (1 # 10) == 3602879701896397 # 36028797018963968 /\
  round64 (1117 # 1000) == 1257630195943211 # 1125899906842624 /\
  round64 (inject_Z (2 ^ 53 + 1)) == inject_Z (2 ^ 53) /\
  round64 (inject_Z (2 ^ 53 + 3)) == inject_Z (2 ^ 53 + 4) /\
  round64 (3 # 2 ^ 1076) == 1 # 2 ^ 1074 /\
  round64 (1 # 2 ^ 1075) == 0 /\
  round64 (- (1 # 3)) == - (6004799503160661 # 18014398509481984) /\
  float_mul (float_sub (round64 (1117 # 1000)) 1) 1000 == 117.
Proof. repeat split; vm_compute; reflexivity. Qed.

Lemma round64_nonneg x : 0 <= x -> 0 <= round64 x.
Proof. intros H. apply (round64_mono 0 x H). Qed.

(** An elapsed time in milliseconds, as lines 135-137 compute it. *)
Lemma elapsed_nonneg (earlier later : Q) :
  earlier <= later -> 0 <= float_mul (float_sub later earlier) 1000.
Proof.
  intros H. unfold float_mul, float_sub. apply round64_nonneg.
  assert (H0 : 0 <= round64 (later - earlier)) by (apply round64_nonneg; lra).
  lra.
Qed.

Lemma elapsed_mono (a b c d : Q) :
  c <= a -> b <= d ->
  float_mul (float_sub b a) 1000 <= float_mul (float_sub d c) 1000.
Proof.
  intros H1 H2. unfold float_mul, float_sub. apply round64_mono.
  assert (H : round64 (b - a) <= round64 (d - c)) by (apply round64_mono; lra).
  lra.
Qed.

End Rounding.

(** ** What an invocation prints and calls *)

Lemma printed_run_of_result r audio_file_path evs :
  Forall is_work_event evs ->
  printed stdout (events (run_of_result r audio_file_path evs)) =
    match r with
    | Ret j => [Json j]
    | Raise e =>
        if isinstance_ImportError e then [Json (dependency_record e)]
        else if isinstance_Exception e then [Json (failure_record e audio_file_path)]
        else []
    end.
Proof.
  intros Hevs. unfold run_of_result.
  destruct r as [j|e]; [|destruct (isinstance_ImportError e), (isinstance_Exception e)];
    simpl; rewrite ?printed_app, (work_printed_stdout evs Hevs); reflexivity.
Qed.

Lemma calls_run_of_result r audio_file_path evs :
  calls (events (run_of_result r audio_file_path evs)) = calls evs.
Proof.
  unfold run_of_result.
  destruct r as [j|e]; [|destruct (isinstance_ImportError e), (isinstance_Exception e)];
    simpl; rewrite ?calls_app, ?app_nil_r; reflexivity.
Qed.

Lemma ending_run_of_result r audio_file_path evs :
  ending (run_of_result r audio_file_path evs) =
    match r with
    | Ret _ => Exit 0
    | Raise e =>
        if isinstance_Exception e then Exit 1
        else match e with SystemExit code => Exit code | _ => Uncaught e end
    end.
Proof. destruct r as [j|[]]; reflexivity. Qed.

Lemma try_result_success w audio_file_path model_size j :
  try_result w audio_file_path model_size = Ret j ->
  exists cuda_available segments info txt,
    cuda_is_available w = Ret cuda_available /\
    transcribe w = Ret (segments, info) /\
    final_text segments = Ret txt /\
    j = result_record txt info
          (if cuda_available then py "cuda" else py "cpu")
          (if cuda_available then py "float16" else py "int8")
          model_size (if cuda_available then 5 else 1) cuda_available cuda_available
          (clock w 0) (clock w 1) (clock w 2) (clock w 3).
Proof.
  unfold try_result.
  destruct (import_faster_whisper w); [|discriminate].
  destruct (import_torch w); [|discriminate].
  destruct (cuda_is_available w) as [c|]; [|discriminate].
  destruct (whisper_model w); [|discriminate].
  destruct (transcribe w) as [[g info]|]; [|discriminate].
  destruct (final_text g) as [txt|] eqn:Htxt; [|discriminate].
  intros [= <-]. exists c, g, info, txt. auto.
Qed.

(** ** Usage errors *)

(** C6.  With zero or more than two positional arguments the invocation
    prints the usage record, exits with status 1 and calls no collaborator.
    With one or two positional arguments it goes on to the import of the
    transcription library, every model load uses the selected model size, and
    with one argument that size is "small". *)
Theorem usage_error (w : world) (argv : list str) :
  let positional := (len argv - 1)%Z in
  ((positional <= 0)%Z \/ (2 < positional)%Z ->
     run_script w argv =
       {| ending := Exit 1; events := [Print stdout (Json usage_record)] |} /\
     calls (events (run_script w argv)) = []) /\
  ((1 <= positional <= 2)%Z ->
     exists prog audio_file_path optional evs,
       argv = prog :: audio_file_path :: optional /\
       run_script w argv =
         run_of_result (try_result w audio_file_path (model_size_of optional))
           audio_file_path evs /\
       head (events (run_script w argv)) = Some (Call ImportFasterWhisper) /\
       Forall (call_ok w audio_file_path (model_size_of optional))
         (calls (events (run_script w argv))) /\
       (positional = 1%Z -> model_size_of optional = py "small")).
Proof.
  intros positional. subst positional. split.
  - intros Hpos.
    rewrite run_script_usage by lia. split; reflexivity.
  - intros Hpos.
    destruct (argv_cases argv) as [Hbad | (prog & audio & optional & -> & Hlen)]; [lia|].
    destruct (run_script_accepted w prog audio optional Hlen)
      as (evs & Hevs & Hhead & Hcalls & Hrun).
    exists prog, audio, optional, evs. split; [reflexivity|]. split; [exact Hrun|].
    rewrite Hrun, calls_run_of_result. split; [|split; [exact Hcalls|]].
    + destruct evs as [|e evs]; [discriminate|].
      unfold run_of_result.
      destruct (try_result w audio (model_size_of optional)) as [j|ex];
        [|destruct (isinstance_ImportError ex), (isinstance_Exception ex)]; exact Hhead.
    + intros Hone. destruct optional; [reflexivity|].
      unfold len in Hone. simpl in Hone. lia.
Qed.

(** ** Sample invocations *)

Lemma usage_error_witness :
  run_script (sample_world true) [script] =
    {| ending := Exit 1; events := [Print stdout (Json usage_record)] |} /\
  calls (events (run_script (sample_world true) [script; wav; py "base"; py "extra"])) = [] /\
  exists prog audio_file_path optional evs,
    [script; wav] = prog :: audio_file_path :: optional /\
    run_script (sample_world true) [script; wav] =
      run_of_result (try_result (sample_world true) audio_file_path (model_size_of optional))
        audio_file_path evs.
Proof.
  split; [|split].
  - apply (usage_error (sample_world true) [script]). left. vm_compute. discriminate.
  - apply (usage_error (sample_world true) [script; wav; py "base"; py "extra"]).
    right. vm_compute. reflexivity.
  - destruct (usage_error (sample_world true) [script; wav]) as [_ H].
    destruct H as (prog & audio & optional & evs & Hargv & Hrun & _).
    + vm_compute. split; discriminate.
    + exists prog, audio, optional, evs. split; [exact Hargv | exact Hrun].
Defined.

(** ** Device-dependent parameters *)

Lemma run_script_calls w prog audio_file_path optional :
  (length optional <= 1)%nat ->
  calls (events (run_script w (prog :: audio_file_path :: optional))) =
    calls (trace (snd (try_body w audio_file_path (model_size_of optional) initial))).
Proof.
  intros Hlen.
  assert (Hmain : main w (prog :: audio_file_path :: optional) initial =
                  try_except (try_body w audio_file_path (model_size_of optional))
                    (fun e => print stdout (Json (dependency_record e)) ;; sys_exit 1)
                    (fun e => print stdout (Json (failure_record e audio_file_path)) ;;
                              sys_exit 1) initial).
  { destruct optional as [|m [|m' optional]]; [reflexivity | reflexivity | simpl in Hlen; lia]. }
  unfold run_script. rewrite Hmain. unfold try_except.
  destruct (try_body w audio_file_path (model_size_of optional) initial) as [[[]|e] s']; simpl.
  - reflexivity.
  - destruct e; simpl; unfold bind, print, emit, sys_exit, raise; simpl;
      rewrite ?calls_app, ?app_nil_r; reflexivity.
Qed.

(** The model load and the inference call are reached when the
    collaborators before them answer. *)
Lemma try_body_loads w audio_file_path model_size c :
  import_faster_whisper w = Ret tt ->
  import_torch w = Ret tt ->
  cuda_is_available w = Ret c ->
  In (NewWhisperModel model_size
        (if c then py "cuda" else py "cpu") (if c then py "float16" else py "int8"))
     (calls (trace (snd (try_body w audio_file_path model_size initial)))) /\
  (whisper_model w = Ret tt ->
   In (Transcribe (transcribe_args_for c audio_file_path))
      (calls (trace (snd (try_body w audio_file_path model_size initial))))).
Proof.
  destruct w as [ifw it cuda wm tr clk]; simpl. intros -> -> ->.
  destruct wm as [[]|e4].
  2:{ run_monad. split; [destruct c; simpl; tauto | discriminate]. }
  destruct tr as [[g info]|e5].
  2:{ run_monad. split; [|intros _]; destruct c; simpl; tauto. }
  run_monad.
  match goal with |- context [collect_text g ?st] =>
    destruct (collect_text_final g st) as (evs & _ & Hrun) end.
  rewrite !Hrun. unfold after. simpl. clear Hrun.
  split; [|intros _]; destruct (final_text g), c; simpl; tauto.
Qed.

(** The body of the [try] ends with the success record when every
    collaborator answers and lines 72-118 return a text. *)
Lemma try_result_returns w audio_file_path model_size c g info txt s0 :
  import_faster_whisper w = Ret tt ->
  import_torch w = Ret tt ->
  cuda_is_available w = Ret c ->
  whisper_model w = Ret tt ->
  transcribe w = Ret (g, info) ->
  fst (collect_text g s0) = Ret txt ->
  try_result w audio_file_path model_size =
    Ret (result_record txt info
           (if c then py "cuda" else py "cpu") (if c then py "float16" else py "int8")
           model_size (if c then 5 else 1) c c
           (clock w 0) (clock w 1) (clock w 2) (clock w 3)).
Proof.
  intros Hfw Htorch Hcuda Hmodel Htr Htxt.
  destruct (collect_text_final g s0) as (evs & _ & Hrun).
  rewrite Hrun in Htxt. simpl in Htxt.
  unfold try_result. rewrite Hfw, Htorch, Hcuda, Hmodel, Htr, Htxt. reflexivity.
Qed.

(** C5.  When the accelerator check answers [cuda_available]: every model
    load is on "cuda" with "float16" if it is true and on "cpu" with "int8"
    otherwise; every inference call has beam width 5 and voice-activity
    filtering on if it is true, beam width 1 and filtering off otherwise, and
    temperature 0 in both cases; and a success record reports exactly these
    values and the flag.  These calls are made and this record is written:
    for an accepted argument list, when the two imports succeed the model is
    loaded with the selected device and precision; when the load succeeds
    the inference is called with the selected beam width and filter and
    temperature 0; and when the inference answers and lines 72-118 return a
    text, the run ends with status 0 and prints one record, which reports
    the selected values (the clock reading time stamps, so that the timing
    fields of the record are defined). *)
Theorem device_parameters (w : world) (argv : list str) (cuda_available : bool) :
  cuda_is_available w = Ret cuda_available ->
  let r := run_script w argv in
  let device := if cuda_available then py "cuda" else py "cpu" in
  let compute_type := if cuda_available then py "float16" else py "int8" in
  let beam := (if cuda_available then 5 else 1)%Z in
  (forall size dev ct,
     In (NewWhisperModel size dev ct) (calls (events r)) ->
     dev = device /\ ct = compute_type) /\
  (forall args,
     In (Transcribe args) (calls (events r)) ->
     beam_size args = beam /\ vad_filter args = cuda_available /\
     temperature args = 0%Q) /\
  (forall j,
     ending r = Exit 0 -> In (Json j) (printed stdout (events r)) ->
     field "device" j = Some (JStr device) /\
     field "compute_type" j = Some (JStr compute_type) /\
     field "beam_size" j = Some (JInt beam) /\
     field "vad_filter" j = Some (JBool cuda_available) /\
     field "cuda_available" j = Some (JBool cuda_available)) /\
  (forall prog audio_file_path optional,
     argv = prog :: audio_file_path :: optional ->
     (length optional <= 1)%nat ->
     import_faster_whisper w = Ret tt ->
     import_torch w = Ret tt ->
     In (NewWhisperModel (model_size_of optional) device compute_type) (calls (events r)) /\
     (whisper_model w = Ret tt ->
      (exists args,
         In (Transcribe args) (calls (events r)) /\
         audio args = audio_file_path /\
         beam_size args = beam /\ vad_filter args = cuda_available /\
         temperature args = 0%Q) /\
      (forall segments info txt s0,
         transcribe w = Ret (segments, info) ->
         fst (collect_text segments s0) = Ret txt ->
         clock_in_range w ->
         ending r = Exit 0 /\
         exists j,
           printed stdout (events r) = [Json j] /\
           field "text" j = Some (JStr txt) /\
           field "device" j = Some (JStr device) /\
           field "compute_type" j = Some (JStr compute_type) /\
           field "beam_size" j = Some (JInt beam) /\
           field "vad_filter" j = Some (JBool cuda_available) /\
           field "cuda_available" j = Some (JBool cuda_available)))).
Proof.
  intros Hcuda r device compute_type beam. subst r device compute_type beam.
  split; [|split; [|split]].
  4:{ intros prog audio optional -> Hlen Hfw Htorch.
      destruct (try_body_loads w audio (model_size_of optional) cuda_available
                  Hfw Htorch Hcuda) as [Hload Hcall].
      rewrite (run_script_calls w prog audio optional Hlen).
      split; [exact Hload|]. intros Hmodel. split.
      - exists (transcribe_args_for cuda_available audio).
        split; [exact (Hcall Hmodel)|]. destruct cuda_available; repeat split.
      - intros g info txt s0 Htr Htxt _.
        destruct (run_script_accepted w prog audio optional Hlen)
          as (evs & Hevs & _ & _ & ->).
        rewrite printed_run_of_result, ending_run_of_result by exact Hevs.
        rewrite (try_result_returns w audio (model_size_of optional) cuda_available
                   g info txt s0 Hfw Htorch Hcuda Hmodel Htr Htxt).
        split; [reflexivity|]. eexists. split; [reflexivity|].
        destruct cuda_available; repeat split. }
  - destruct (argv_cases argv) as [Hbad | (prog & audio & optional & -> & Hlen)].
    { rewrite (run_script_usage w argv Hbad). simpl. intros ? ? ? []. }
    destruct (run_script_accepted w prog audio optional Hlen)
      as (evs & Hevs & _ & Hcalls & ->).
    rewrite calls_run_of_result by exact Hevs.
    rewrite List.Forall_forall in Hcalls.
    intros size dev ct Hin. apply Hcalls in Hin as (c & Hc & _ & -> & ->).
    rewrite Hcuda in Hc. injection Hc as <-. split; reflexivity.
  - destruct (argv_cases argv) as [Hbad | (prog & audio & optional & -> & Hlen)].
    { rewrite (run_script_usage w argv Hbad). simpl. intros ? []. }
    destruct (run_script_accepted w prog audio optional Hlen)
      as (evs & Hevs & _ & Hcalls & ->).
    rewrite calls_run_of_result by exact Hevs.
    rewrite List.Forall_forall in Hcalls.
    intros args Hin. apply Hcalls in Hin as (c & Hc & ->).
    rewrite Hcuda in Hc. injection Hc as <-. destruct cuda_available; repeat split.
  - destruct (argv_cases argv) as [Hbad | (prog & audio & optional & -> & Hlen)].
    { rewrite (run_script_usage w argv Hbad). simpl. intros j [=]. }
    destruct (run_script_accepted w prog audio optional Hlen)
      as (evs & Hevs & _ & _ & ->).
    rewrite printed_run_of_result, ending_run_of_result by exact Hevs.
    intros j Hexit Hin.
    destruct (try_result w audio (model_size_of optional)) as [j'|e] eqn:Hres.
    + destruct Hin as [[= <-]|[]].
      apply try_result_success in Hres as (c & g & info & txt & Hc & _ & _ & ->).
      rewrite Hcuda in Hc. injection Hc as <-.
      destruct cuda_available; repeat split.
    + destruct e; simpl in Hexit; try discriminate. destruct Hin.
Qed.

(** Both halves on the sample invocation: without and with the
    accelerator. *)
Lemma device_parameters_witness :
  (cuda_is_available (sample_world false) = Ret false /\
   In (NewWhisperModel (py "small") (py "cpu") (py "int8"))
      (calls (events (run_script (sample_world false) [script; wav]))) /\
   (exists args,
      In (Transcribe args) (calls (events (run_script (sample_world false) [script; wav]))) /\
      audio args = wav /\ beam_size args = 1%Z /\ vad_filter args = false /\
      temperature args = 0%Q) /\
   ending (run_script (sample_world false) [script; wav]) = Exit 0 /\
   exists j,
     printed stdout (events (run_script (sample_world false) [script; wav])) = [Json j] /\
     field "text" j = Some (JStr (py "Hello there. How are you?")) /\
     field "device" j = Some (JStr (py "cpu")) /\
     field "compute_type" j = Some (JStr (py "int8")) /\
     field "beam_size" j = Some (JInt 1) /\
     field "vad_filter" j = Some (JBool false) /\
     field "cuda_available" j = Some (JBool false)) /\
  (cuda_is_available (sample_world true) = Ret true /\
   In (NewWhisperModel (py "small") (py "cuda") (py "float16"))
      (calls (events (run_script (sample_world true) [script; wav]))) /\
   (exists args,
      In (Transcribe args) (calls (events (run_script (sample_world true) [script; wav]))) /\
      audio args = wav /\ beam_size args = 5%Z /\ vad_filter args = true /\
      temperature args = 0%Q) /\
   ending (run_script (sample_world true) [script; wav]) = Exit 0 /\
   exists j,
     printed stdout (events (run_script (sample_world true) [script; wav])) = [Json j] /\
     field "text" j = Some (JStr (py "Hello there. How are you?")) /\
     field "device" j = Some (JStr (py "cuda")) /\
     field "compute_type" j = Some (JStr (py "float16")) /\
     field "beam_size" j = Some (JInt 5) /\
     field "vad_filter" j = Some (JBool true) /\
     field "cuda_available" j = Some (JBool true)).
Proof.
  split.
  - destruct (device_parameters (sample_world false) [script; wav] false eq_refl)
      as (_ & _ & _ & Hrun).
    destruct (Hrun script wav [] eq_refl (Nat.le_0_l 1) eq_refl eq_refl) as [Hload Hnext].
    destruct (Hnext eq_refl) as [Hcall Hrec].
    destruct (Hrec sample_segments sample_info (py "Hello there. How are you?") initial
                eq_refl eq_refl) as [Hexit Hjson].
    { repeat (apply List.Forall_cons; [split; vm_compute; discriminate|]).
      apply List.Forall_nil. }
    split; [reflexivity|]. split; [exact Hload|]. split; [exact Hcall|].
    split; [exact Hexit | exact Hjson].
  - destruct (device_parameters (sample_world true) [script; wav] true eq_refl)
      as (_ & _ & _ & Hrun).
    destruct (Hrun script wav [] eq_refl (Nat.le_0_l 1) eq_refl eq_refl) as [Hload Hnext].
    destruct (Hnext eq_refl) as [Hcall Hrec].
    destruct (Hrec sample_segments sample_info (py "Hello there. How are you?") initial
                eq_refl eq_refl) as [Hexit Hjson].
    { repeat (apply List.Forall_cons; [split; vm_compute; discriminate|]).
      apply List.Forall_nil. }
    split; [reflexivity|]. split; [exact Hload|]. split; [exact Hcall|].
    split; [exact Hexit | exact Hjson].
Defined.

(** ** Timing fields *)

(** C8 (as amended).  A success record carries three integer timing fields,
    computed in binary64 from the four clock readings of the run and then
    truncated.  When the readings are ordered (start <= model-load <=
    transcription-start <= end) the three fields are non-negative and
    [total_ms] is at least each of the other two. *)
Theorem timing_fields (w : world) (argv : list str) (j : json) :
  let r := run_script w argv in
  let start_time := clock w 0 in
  let model_load_time := clock w 1 in
  let transcription_start_time := clock w 2 in
  let end_time := clock w 3 in
  ending r = Exit 0 ->
  In (Json j) (printed stdout (events r)) ->
  exists model_load_ms transcription_ms total_ms : Z,
    field "timing" j =
      Some (JObj [(py "model_load_ms", JInt model_load_ms);
                  (py "transcription_ms", JInt transcription_ms);
                  (py "total_ms", JInt total_ms)]) /\
    model_load_ms = py_int (float_mul (float_sub model_load_time start_time) 1000) /\
    transcription_ms =
      py_int (float_mul (float_sub end_time transcription_start_time) 1000) /\
    total_ms = py_int (float_mul (float_sub end_time start_time) 1000) /\
    ((start_time <= model_load_time)%Q ->
     (model_load_time <= transcription_start_time)%Q ->
     (transcription_start_time <= end_time)%Q ->
     (0 <= model_load_ms)%Z /\ (0 <= transcription_ms)%Z /\ (0 <= total_ms)%Z /\
     (model_load_ms <= total_ms)%Z /\ (transcription_ms <= total_ms)%Z).
Proof.
  intros r t0 t1 t2 t3 Hexit Hin. subst r.
  destruct (argv_cases argv) as [Hbad | (prog & audio & optional & -> & Hlen)].
  { rewrite (run_script_usage w argv Hbad) in Hexit. discriminate. }
  destruct (run_script_accepted w prog audio optional Hlen) as (evs & Hevs & _ & _ & Hrun).
  rewrite Hrun in Hexit, Hin.
  rewrite printed_run_of_result in Hin by exact Hevs.
  rewrite ending_run_of_result in Hexit.
  destruct (try_result w audio (model_size_of optional)) as [j'|e] eqn:Hres.
  2:{ destruct e; simpl in Hexit; try discriminate. destruct Hin. }
  destruct Hin as [[= <-]|[]].
  apply try_result_success in Hres as (c & g & info & txt & _ & _ & _ & ->).
  fold t0 t1 t2 t3. do 3 eexists. split; [reflexivity|]. do 3 (split; [reflexivity|]).
  intros H01 H12 H23.
  assert (H02 : (t0 <= t2)%Q) by (eapply Qle_trans; eassumption).
  assert (H03 : (t0 <= t3)%Q) by (eapply Qle_trans; eassumption).
  assert (H13 : (t1 <= t3)%Q) by (eapply Qle_trans; eassumption).
  split; [apply py_int_nonneg, elapsed_nonneg; assumption|].
  split; [apply py_int_nonneg, elapsed_nonneg; assumption|].
  split; [apply py_int_nonneg, elapsed_nonneg; assumption|].
  split; apply py_int_mono;
    solve [apply elapsed_nonneg; assumption
          | apply elapsed_mono; solve [assumption | apply Qle_refl]].
Qed.

Lemma timing_fields_witness :
  ending (run_script (sample_world false) [script; wav]) = Exit 0 /\
  In (Json (sample_record false))
     (printed stdout (events (run_script (sample_world false) [script; wav]))) /\
  exists a b c : Z,
    field "timing" (sample_record false) =
      Some (JObj [(py "model_load_ms", JInt a); (py "transcription_ms", JInt b);
                  (py "total_ms", JInt c)]) /\
    (0 <= a)%Z /\ (0 <= b)%Z /\ (0 <= c)%Z /\ (a <= c)%Z /\ (b <= c)%Z.
Proof.
  assert (Hin : In (Json (sample_record false))
                   (printed stdout (events (run_script (sample_world false) [script; wav])))).
  { vm_compute. left. reflexivity. }
  split; [vm_compute; reflexivity|]. split; [exact Hin|].
  destruct (timing_fields (sample_world false) [script; wav] (sample_record false))
    as (a & b & c & Hfield & _ & _ & _ & Hordered);
    [vm_compute; reflexivity | exact Hin |].
  exists a, b, c. split; [exact Hfield|].
  apply Hordered; vm_compute; discriminate.
Defined.

(** Two success records against the claim as worded.  With the ordered
    readings 1.0, 1.117, 1.117 and 1.46 the two partial times are 117 and
    343 milliseconds, and the total is 459: each difference is rounded to
    binary64 and so is its product by 1000, before the truncation.  With a
    clock that is set back between the first and the second reading, two
    fields are negative. *)
Lemma timing_fields_counterexample :
  ((clock rounding_world 0 <= clock rounding_world 1)%Q /\
   (clock rounding_world 1 <= clock rounding_world 2)%Q /\
   (clock rounding_world 2 <= clock rounding_world 3)%Q /\
   ending (run_script rounding_world [script; wav]) = Exit 0 /\
   (exists j,
      printed stdout (events (run_script rounding_world [script; wav])) = [Json j] /\
      field "timing" j =
        Some (JObj [(py "model_load_ms", JInt 117);
                    (py "transcription_ms", JInt 343);
                    (py "total_ms", JInt 459)])) /\
   (459 < 117 + 343)%Z) /\
  (ending (run_script stepped_back_world [script; wav]) = Exit 0 /\
   exists j,
     printed stdout (events (run_script stepped_back_world [script; wav])) = [Json j] /\
     field "timing" j =
       Some (JObj [(py "model_load_ms", JInt (-4750));
                   (py "transcription_ms", JInt 250);
                   (py "total_ms", JInt (-4250))])).
Proof.
  split.
  - split; [vm_compute; discriminate|]. split; [vm_compute; discriminate|].
    split; [vm_compute; discriminate|]. split; [vm_compute; reflexivity|].
    split; [|reflexivity]. eexists. split; vm_compute; reflexivity.
  - split; [vm_compute; reflexivity|]. eexists. split; vm_compute; reflexivity.
Qed.

(** ** Error kinds *)

(** The usage record is an error record whose tag is neither of the two
    tags of the [except] clauses. *)
Lemma error_kinds_counterexample :
  ending (run_script (sample_world true) [script]) = Exit 1 /\
  printed stdout (events (run_script (sample_world true) [script])) = [Json usage_record] /\
  field "error" usage_record = Some (JStr usage_message) /\
  field "error" usage_record <> Some (JStr (py "faster-whisper not installed")) /\
  field "error" usage_record <> Some (JStr (py "Transcription failed")).
Proof.
  split; [reflexivity|]. split; [reflexivity|]. split; [reflexivity|].
  split; vm_compute; discriminate.
Qed.

(** C3 (as amended).  An invocation that prints a JSON object and does not
    end with status 0 ends with status 1, and the object is one of three
    error records: the usage record, when line 15 refuses the argument count;
    the record tagged "faster-whisper not installed", when an [ImportError]
    leaves the body of the [try]; the record tagged "Transcription failed",
    when another exception derived from [Exception] leaves it.  No error
    record has any other tag. *)
Theorem error_kinds (w : world) (argv : list str) (j : json) :
  let r := run_script w argv in
  In (Json j) (printed stdout (events r)) ->
  ending r <> Exit 0 ->
  ending r = Exit 1 /\
  ((((len argv < 2)%Z \/ (3 < len argv)%Z) /\ j = usage_record /\
    field "error" j = Some (JStr usage_message)) \/
   (exists prog audio_file_path optional e,
      argv = prog :: audio_file_path :: optional /\
      try_result w audio_file_path (model_size_of optional) = Raise e /\
      isinstance_ImportError e = true /\
      j = dependency_record e /\
      field "error" j = Some (JStr (py "faster-whisper not installed"))) \/
   (exists prog audio_file_path optional e,
      argv = prog :: audio_file_path :: optional /\
      try_result w audio_file_path (model_size_of optional) = Raise e /\
      isinstance_ImportError e = false /\ isinstance_Exception e = true /\
      j = failure_record e audio_file_path /\
      field "error" j = Some (JStr (py "Transcription failed")))).
Proof.
  intros r Hin Hfail. subst r.
  destruct (argv_cases argv) as [Hbad | (prog & audio & optional & -> & Hlen)].
  { rewrite (run_script_usage w argv Hbad) in *. simpl in Hin.
    destruct Hin as [[= <-]|[]]. split; [reflexivity|]. left. auto. }
  destruct (run_script_accepted w prog audio optional Hlen) as (evs & Hevs & _ & _ & Hrun).
  rewrite Hrun in *.
  rewrite printed_run_of_result in Hin by exact Hevs.
  rewrite ending_run_of_result in *.
  destruct (try_result w audio (model_size_of optional)) as [j'|e] eqn:Hres; [congruence|].
  destruct e as [m|m|code|]; simpl in *; try contradiction;
    destruct Hin as [[= <-]|[]]; (split; [reflexivity|]); right.
  - left. exists prog, audio, optional, (ImportError m). auto 10.
  - right. exists prog, audio, optional, (OtherException m). auto 10.
Qed.

Lemma error_kinds_witness :
  In (Json bare_record) (printed stdout (events (run_script bare_world [script; wav]))) /\
  ending (run_script bare_world [script; wav]) = Exit 1 /\
  field "error" bare_record = Some (JStr (py "faster-whisper not installed")).
Proof.
  assert (Hin : In (Json bare_record)
                   (printed stdout (events (run_script bare_world [script; wav])))).
  { vm_compute. left. reflexivity. }
  split; [exact Hin|].
  destruct (error_kinds bare_world [script; wav] bare_record Hin) as [Hexit _].
  - vm_compute. discriminate.
  - split; [exact Hexit | reflexivity].
Defined.

(** ** One JSON object per invocation *)

Lemma try_result_raise w audio_file_path model_size e :
  try_result w audio_file_path model_size = Raise e -> In e (world_exceptions w).
Proof.
  unfold try_result, world_exceptions.
  destruct (import_faster_whisper w); simpl; [|intros [= ->]; left; reflexivity].
  destruct (import_torch w); simpl; [|intros [= ->]; left; reflexivity].
  destruct (cuda_is_available w); simpl; [|intros [= ->]; left; reflexivity].
  destruct (whisper_model w); simpl; [|intros [= ->]; left; reflexivity].
  destruct (transcribe w) as [[g info]|]; simpl; [|intros [= ->]; left; reflexivity].
  unfold final_text. destruct (scan g loop_entry) as [v|e'] eqn:Hscan; [discriminate|].
  intros [= ->]. apply scan_raise in Hscan. rewrite Hscan. left. reflexivity.
Qed.

Lemma error_record_not_success (j : json) (k : str) :
  field "error" j = Some (JStr k) -> ~ is_success_record j.
Proof.
  intros Herr (txt & info & dev & ct & ms & beam & vad & cuda & t0 & t1 & t2 & t3 & ->).
  discriminate Herr.
Qed.

(** Where the lines of an invocation go: diagnostics on the error stream,
    JSON objects on standard output. *)
Lemma streams_of_events evs tail_ :
  Forall is_work_event evs ->
  (tail_ = [] \/ exists j, tail_ = [Print stdout (Json j)]) ->
  (forall f d, In (Print f (Diag d)) (evs ++ tail_) -> f = stderr) /\
  (forall f j, In (Print f (Json j)) (evs ++ tail_) -> f = stdout).
Proof.
  intros Hevs Htail. rewrite List.Forall_forall in Hevs. split.
  - intros f d Hin. apply in_app_or in Hin as [Hin|Hin].
    + apply Hevs in Hin as [Hd | [c [=]]]. destruct f; [contradiction | reflexivity].
    + destruct Htail as [-> | [j ->]]; [destruct Hin|].
      destruct Hin as [[=]|[]].
  - intros f j Hin. apply in_app_or in Hin as [Hin|Hin].
    + apply Hevs in Hin as [Hd | [c [=]]]. destruct f; contradiction.
    + destruct Htail as [-> | [j' ->]]; [destruct Hin|].
      destruct Hin as [[= <- _]|[]]. reflexivity.
Qed.

(** An interrupt during inference: nothing is printed on standard output and
    the exception leaves the script. *)
Lemma one_json_object_counterexample :
  raised (import_faster_whisper interrupted_world) = [] /\
  printed stdout (events (run_script interrupted_world [script; wav])) = [] /\
  ending (run_script interrupted_world [script; wav]) = Uncaught KeyboardInterrupt /\
  ~ (forall w argv, exists j code,
       printed stdout (events (run_script w argv)) = [Json j] /\
       ending (run_script w argv) = Exit code).
Proof.
  split; [reflexivity|]. split; [reflexivity|]. split; [reflexivity|].
  intros H. destruct (H interrupted_world [script; wav]) as (j & code & Hout & _).
  vm_compute in Hout. discriminate Hout.
Qed.

(** C4 (as amended).  When no collaborator raises an exception outside the
    [Exception] hierarchy, every invocation, whatever its arguments, prints
    exactly one JSON object on standard output and ends with an exit status,
    not with an exception: status 0 exactly when the object is the success
    record, status 1 otherwise.  Diagnostics are printed on the error stream
    only and JSON objects on standard output only. *)
Theorem one_json_object (w : world) (argv : list str) :
  raises_only_exceptions w ->
  let r := run_script w argv in
  exists j code,
    printed stdout (events r) = [Json j] /\
    ending r = Exit code /\
    (code = 0%Z <-> is_success_record j) /\
    (code <> 0%Z -> code = 1%Z /\ exists k, field "error" j = Some (JStr k)) /\
    (forall f d, In (Print f (Diag d)) (events r) -> f = stderr) /\
    (forall f j', In (Print f (Json j')) (events r) -> f = stdout).
Proof.
  intros Htame r. subst r.
  destruct (argv_cases argv) as [Hbad | (prog & audio & optional & -> & Hlen)].
  { rewrite (run_script_usage w argv Hbad). exists usage_record, 1%Z. simpl.
    split; [reflexivity|]. split; [reflexivity|]. split; [|split; [|split]].
    - split; [discriminate|]. intros Hs. exfalso.
      eapply error_record_not_success; [|exact Hs]. reflexivity.
    - intros _. split; [reflexivity|]. eexists. reflexivity.
    - intros f d [[=]|[]].
    - intros f j [[= <- _]|[]]. reflexivity. }
  destruct (run_script_accepted w prog audio optional Hlen) as (evs & Hevs & _ & _ & Hrun).
  rewrite Hrun, printed_run_of_result, ending_run_of_result by exact Hevs.
  destruct (try_result w audio (model_size_of optional)) as [j|e] eqn:Hres.
  - exists j, 0%Z. split; [reflexivity|]. split; [reflexivity|].
    split; [|split; [intros H; congruence|]].
    + split; [intros _|reflexivity].
      apply try_result_success in Hres as (c & g & info & txt & _ & _ & _ & ->).
      unfold is_success_record. do 12 eexists. reflexivity.
    + apply streams_of_events; [exact Hevs|]. right. eexists. reflexivity.
  - assert (He : isinstance_Exception e = true).
    { apply try_result_raise in Hres. unfold raises_only_exceptions in Htame.
      rewrite List.Forall_forall in Htame. apply Htame. exact Hres. }
    rewrite He.
    destruct e as [m|m|code|]; try discriminate He; simpl.
    + exists (dependency_record (ImportError m)), 1%Z.
      split; [reflexivity|]. split; [reflexivity|]. split; [|split].
      * split; [discriminate|]. intros Hs. exfalso.
        eapply error_record_not_success; [|exact Hs]. reflexivity.
      * intros _. split; [reflexivity|]. eexists. reflexivity.
      * apply streams_of_events; [exact Hevs|]. right. eexists. reflexivity.
    + exists (failure_record (OtherException m) audio), 1%Z.
      split; [reflexivity|]. split; [reflexivity|]. split; [|split].
      * split; [discriminate|]. intros Hs. exfalso.
        eapply error_record_not_success; [|exact Hs]. reflexivity.
      * intros _. split; [reflexivity|]. eexists. reflexivity.
      * apply streams_of_events; [exact Hevs|]. right. eexists. reflexivity.
Qed.

Lemma one_json_object_witness :
  raises_only_exceptions bare_world /\
  exists j,
    printed stdout (events (run_script bare_world [script; wav])) = [Json j] /\
    ending (run_script bare_world [script; wav]) = Exit 1.
Proof.
  assert (Htame : raises_only_exceptions bare_world).
  { unfold raises_only_exceptions. simpl. repeat constructor. }
  split; [exact Htame|].
  destruct (one_json_object bare_world [script; wav] Htame)
    as (j & code & Hout & Hend & _ & Hcode & _).
  exists j. split; [exact Hout|].
  rewrite Hend. f_equal. apply Hcode. intros ->.
  vm_compute in Hend. discriminate Hend.
Defined.

(** ** Instances of the loop theorems *)

Lemma exact_repeat_guard_witness :
  (exists v' evs,
     for_segments (Yield foo_segment (Fails KeyboardInterrupt))
       {| transcribed_text := py "foo foo foo foo "; segments_processed := 4;
          last_segment_text := py "foo"; repetition_count := 3 |} initial =
       (Ret v', after (after initial [Call NextSegment]) evs) /\
     repetition_count v' = 4%Z /\
     transcribed_text v' = py "foo foo foo foo ") /\
  strip (text foo_segment) <> [] /\
  (exists evs,
     for_segments (Yield foo_segment (Fails KeyboardInterrupt)) loop_entry initial =
       (preceding_scan None (Yield foo_segment (Fails KeyboardInterrupt)) loop_entry,
        after initial evs)).
Proof.
  destruct (exact_repeat_guard foo_segment (Fails KeyboardInterrupt)
              {| transcribed_text := py "foo foo foo foo "; segments_processed := 4;
                 last_segment_text := py "foo"; repetition_count := 3 |} initial)
    as ((fl & v' & evs & _ & _ & Hcount & Hbreak) & _ & _ & _ & _ & _ & _ & Hfirst).
  assert (Hfoo : strip (text foo_segment) <> []) by (vm_compute; discriminate).
  split; [|split; [exact Hfoo | exact (Hfirst Hfoo)]].
  simpl in Hcount. destruct Hcount as [Hcount Hfl].
  rewrite Hcount in Hfl. simpl in Hfl.
  destruct (Hbreak Hfl) as (Htext & Hrun & _).
  exists v', evs. split; [exact Hrun|]. split; [exact Hcount | exact Htext].
Defined.

Lemma segment_filter_and_trim_witness :
  exists evs,
    collect_text sample_segments initial =
      (Ret (py "Hello there. How are you?"), after initial evs).
Proof.
  destruct (segment_filter_and_trim foo_segment sample_segments loop_entry initial)
    as (_ & _ & _ & evs & Hfinal).
  change (final_text sample_segments) with (Ret (py "Hello there. How are you?")) in Hfinal.
  exists evs. apply Hfinal.
Defined.

Lemma ratio_division_safe_witness :
  (list_to_set (split looping_text) : gset str) <> ∅ /\
  (0 < unique_count (split looping_text))%Z.
Proof.
  apply (ratio_division_safe [] (split looping_text) ∅ 0 initial).
  vm_compute. reflexivity.
Defined.

(** * Further properties of the driver *)

(** ** Failing imports *)

(** X1.  When the import of the transcription library raises an
    [ImportError], an invocation with an accepted argument list does nothing
    but that import and one print: the record tagged "faster-whisper not
    installed", with the message of the exception as details and the install
    hint; it ends with status 1.  torch is not imported and no diagnostic is
    written. *)
Theorem dependency_missing (w : world) (prog audio_file_path : str) (optional : list str)
    (m : str) :
  (length optional <= 1)%nat ->
  import_faster_whisper w = Raise (ImportError m) ->
  run_script w (prog :: audio_file_path :: optional) =
    {| ending := Exit 1;
       events := [Call ImportFasterWhisper;
                  Print stdout (Json (dependency_record (ImportError m)))] |} /\
  field "error" (dependency_record (ImportError m)) =
    Some (JStr (py "faster-whisper not installed")) /\
  field "details" (dependency_record (ImportError m)) = Some (JStr m) /\
  field "install_command" (dependency_record (ImportError m)) =
    Some (JStr (py "pip install faster-whisper")).
Proof.
  intros Hlen Himport. split; [|repeat split].
  destruct optional as [|size [|extra optional]]; [| |simpl in Hlen; lia];
    unfold run_script, main, try_except, try_body, invoke, bind, emit, getitem, ret; simpl;
    rewrite Himport; reflexivity.
Qed.

Lemma dependency_missing_witness :
  (length [py "base"] <= 1)%nat /\
  import_faster_whisper bare_world =
    Raise (ImportError (py "No module named 'faster_whisper'")) /\
  ending (run_script bare_world [script; wav; py "base"]) = Exit 1 /\
  calls (events (run_script bare_world [script; wav; py "base"])) = [ImportFasterWhisper].
Proof.
  assert (Hlen : (length [py "base"] <= 1)%nat) by (simpl; lia).
  destruct (dependency_missing bare_world script wav [py "base"]
              (py "No module named 'faster_whisper'") Hlen eq_refl) as [Hrun _].
  split; [exact Hlen|]. split; [reflexivity|]. rewrite Hrun. split; reflexivity.
Defined.

(** X2.  The tag "faster-whisper not installed" is also what an
    [ImportError] of [import torch] gives: the transcription library was
    imported, torch was not, and the record names the former with the
    message of the latter as details; the model is never loaded. *)
Theorem torch_import_error (w : world) (prog audio_file_path : str) (optional : list str)
    (m : str) :
  (length optional <= 1)%nat ->
  import_faster_whisper w = Ret tt ->
  import_torch w = Raise (ImportError m) ->
  run_script w (prog :: audio_file_path :: optional) =
    {| ending := Exit 1;
       events := [Call ImportFasterWhisper; Call ImportTorch;
                  Print stdout (Json (dependency_record (ImportError m)))] |} /\
  field "error" (dependency_record (ImportError m)) =
    Some (JStr (py "faster-whisper not installed")) /\
  field "details" (dependency_record (ImportError m)) = Some (JStr m).
Proof.
  intros Hlen Himport Htorch. split; [|repeat split].
  destruct optional as [|size [|extra optional]]; [| |simpl in Hlen; lia];
    unfold run_script, main, try_except, try_body, invoke, now, bind, emit, getitem, ret;
    simpl; rewrite Himport; simpl; rewrite Htorch; reflexivity.
Qed.

Lemma torch_import_error_witness :
  (length (@nil str) <= 1)%nat /\
  import_faster_whisper torchless_world = Ret tt /\
  import_torch torchless_world = Raise (ImportError (py "No module named 'torch'")) /\
  printed stdout (events (run_script torchless_world [script; wav])) =
    [Json (dependency_record (ImportError (py "No module named 'torch'")))].
Proof.
  assert (Hlen : (length (@nil str) <= 1)%nat) by (simpl; lia).
  destruct (torch_import_error torchless_world script wav []
              (py "No module named 'torch'") Hlen eq_refl eq_refl) as [Hrun _].
  split; [exact Hlen|]. split; [reflexivity|]. split; [reflexivity|].
  rewrite Hrun. reflexivity.
Defined.

(** ** Exceptions that no handler catches *)



(** ** The JSON object ends the run *)

(** X4.  A JSON object printed on standard output is the last event of the
    invocation: before it there are only collaborator calls and diagnostics
    on the error stream, after it nothing is called or printed. *)
Theorem json_is_last (w : world) (argv : list str) (j : json) :
  In (Print stdout (Json j)) (events (run_script w argv)) ->
  exists evs,
    events (run_script w argv) = evs ++ [Print stdout (Json j)] /\
    printed stdout evs = [] /\
    Forall is_work_event evs.
Proof.
  intros Hin.
  destruct (argv_cases argv) as [Hbad | (prog & audio & optional & -> & Hlen)].
  { rewrite (run_script_usage w argv Hbad) in *. simpl in Hin.
    destruct Hin as [[= <-]|[]]. exists []. split; [reflexivity|].
    split; [reflexivity | constructor]. }
  destruct (run_script_accepted w prog audio optional Hlen) as (evs & Hevs & _ & _ & Hrun).
  rewrite Hrun in *.
  assert (Hnot : ~ In (Print stdout (Json j)) evs).
  { intros Hj. rewrite List.Forall_forall in Hevs. apply Hevs in Hj as [Hd | [c [=]]].
    exact Hd. }
  exists evs. split; [|split; [apply work_printed_stdout; exact Hevs | exact Hevs]].
  unfold run_of_result in *.
  destruct (try_result w audio (model_size_of optional)) as [j'|e].
  - simpl in *. apply in_app_or in Hin as [Hin | [[= <-]|[]]]; [contradiction | reflexivity].
  - destruct (isinstance_ImportError e);
      [|destruct (isinstance_Exception e)]; simpl in *;
      try (apply in_app_or in Hin as [Hin | [[= <-]|[]]]; [contradiction | reflexivity]).
    contradiction.
Qed.

Lemma json_is_last_witness :
  In (Print stdout (Json bare_record)) (events (run_script bare_world [script; wav])) /\
  exists evs,
    events (run_script bare_world [script; wav]) = evs ++ [Print stdout (Json bare_record)] /\
    printed stdout evs = [].
Proof.
  assert (Hin : In (Print stdout (Json bare_record))
                   (events (run_script bare_world [script; wav]))).
  { vm_compute. right. left. reflexivity. }
  destruct (json_is_last bare_world [script; wav] bare_record Hin) as (evs & Hev & Hout & _).
  split; [exact Hin|]. exists evs. split; [exact Hev | exact Hout].
Defined.

(** ** Runs of identical segments *)

(** Segments that repeat the remembered text and keep the counter below 4
    are all consumed. *)
Lemma scan_repeats segs rest v :
  Forall (fun seg => strip (text seg) = last_segment_text v) segs ->
  (repetition_count v + Z.of_nat (length segs) < 4)%Z ->
  scan (prepend segs rest) v =
    scan rest {| transcribed_text :=
                   transcribed_text v ++ appended (repeat (last_segment_text v) (length segs));
                 segments_processed := segments_processed v + Z.of_nat (length segs);
                 last_segment_text := last_segment_text v;
                 repetition_count := repetition_count v + Z.of_nat (length segs) |} /\
  pulls (prepend segs rest) v =
    (length segs +
     pulls rest {| transcribed_text :=
                     transcribed_text v ++ appended (repeat (last_segment_text v) (length segs));
                   segments_processed := segments_processed v + Z.of_nat (length segs);
                   last_segment_text := last_segment_text v;
                   repetition_count := repetition_count v + Z.of_nat (length segs) |})%nat.
Proof.
  revert v. induction segs as [|seg segs IH]; intros v Hall Hc.
  - replace {| transcribed_text :=
                 transcribed_text v ++ appended (repeat (last_segment_text v) (length (@nil segment)));
               segments_processed := segments_processed v + Z.of_nat (length (@nil segment));
               last_segment_text := last_segment_text v;
               repetition_count := repetition_count v + Z.of_nat (length (@nil segment)) |}
      with v.
    + split; reflexivity.
    + destruct v as [t p l c]. cbn [transcribed_text segments_processed last_segment_text
                                      repetition_count repeat length].
      unfold appended. cbn [List.filter List.map List.concat].
      rewrite app_nil_r, !Z.add_0_r. reflexivity.
  - apply List.Forall_cons_iff in Hall as [Hlast Hall].
    change (prepend (seg :: segs) rest) with (Yield seg (prepend segs rest)).
    cbn [length] in *.
    cbn [scan pulls]. rewrite Hlast. unfold loop_step.
    rewrite (bool_decide_eq_true_2 (last_segment_text v = last_segment_text v) eq_refl).
    destruct (Z.leb_spec 4 (repetition_count v + 1)) as [Hge|Hlt]; [lia|].
    match goal with |- context [scan _ ?v1 = _] =>
      destruct (IH v1) as [IHscan IHpulls]; [exact Hall | cbn [repetition_count]; lia |] end.
    rewrite IHscan, IHpulls.
    cbn [transcribed_text segments_processed last_segment_text repetition_count].
    match goal with |- scan _ ?a = scan _ ?b /\ _ => assert (HR : a = b) end.
    { f_equal; [|lia|lia]. cbn [repeat]. rewrite appended_cons.
      destruct (kept (last_segment_text v)); rewrite <- ?app_assoc; reflexivity. }
    rewrite HR. split; reflexivity.
Qed.

(** X5.  Wherever they occur in the stream, five consecutive segments with
    the same trimmed text that follow a different text end the loop at the
    fifth: the first four pass the repeat guard (and are appended if they
    pass the length filter), the fifth is not appended, the generator is
    advanced five times and never again. *)
Theorem five_identical_segments (s1 s2 s3 s4 s5 : segment) (rest : generator)
    (v : loop_vars) (s : state) :
  strip (text s1) <> last_segment_text v ->
  strip (text s2) = strip (text s1) ->
  strip (text s3) = strip (text s1) ->
  strip (text s4) = strip (text s1) ->
  strip (text s5) = strip (text s1) ->
  exists evs,
    for_segments (prepend [s1; s2; s3; s4; s5] rest) v s =
      (Ret {| transcribed_text :=
                transcribed_text v ++ appended (repeat (strip (text s1)) 4);
              segments_processed := segments_processed v + 5;
              last_segment_text := strip (text s1);
              repetition_count := 4 |}, after s evs) /\
    calls evs = repeat NextSegment 5.
Proof.
  intros Hnew H2 H3 H4 H5.
  destruct (for_segments_scan (prepend [s1; s2; s3; s4; s5] rest) v s)
    as (evs & _ & Hcalls & Hrun).
  exists evs.
  assert (Hscan : scan (prepend [s1; s2; s3; s4; s5] rest) v =
                  Ret {| transcribed_text :=
                           transcribed_text v ++ appended (repeat (strip (text s1)) 4);
                         segments_processed := segments_processed v + 5;
                         last_segment_text := strip (text s1);
                         repetition_count := 4 |} /\
                  pulls (prepend [s1; s2; s3; s4; s5] rest) v = 5%nat).
  { change (prepend [s1; s2; s3; s4; s5] rest)
      with (Yield s1 (prepend [s2; s3; s4] (Yield s5 rest))).
    cbn [scan pulls]. unfold loop_step. rewrite (bool_decide_eq_false_2 _ Hnew).
    cbv beta iota.
    match goal with |- context [scan _ ?v1 = _] =>
      destruct (scan_repeats [s2; s3; s4] (Yield s5 rest) v1) as [Hs Hp];
        [repeat (apply List.Forall_cons; [assumption|]); apply List.Forall_nil
        | cbn [repetition_count length]; lia |] end.
    rewrite Hs, Hp. cbn [scan pulls]. rewrite H5. unfold loop_step.
    cbn [transcribed_text segments_processed last_segment_text repetition_count length].
    rewrite (bool_decide_eq_true_2 (strip (text s1) = strip (text s1)) eq_refl).
    cbn [Z.of_nat Pos.of_succ_nat Pos.succ Z.add Z.leb Z.compare Pos.compare Pos.compare_cont
         Pos.add].
    split; [|reflexivity]. f_equal. f_equal; [|lia].
    change (repeat (strip (text s1)) 4)
      with (strip (text s1) :: repeat (strip (text s1)) 3).
    rewrite appended_cons.
    destruct (kept (strip (text s1))); rewrite <- ?app_assoc; reflexivity. }
  destruct Hscan as [Hscan Hpulls]. rewrite Hscan in Hrun. rewrite Hpulls in Hcalls.
  split; assumption.
Qed.

Lemma five_identical_segments_witness :
  strip (py " okay") <> last_segment_text loop_entry /\
  strip (py "okay ") = strip (py " okay") /\
  strip (py "okay") = strip (py " okay") /\
  strip (py " okay ") = strip (py " okay") /\
  exists evs,
    for_segments
      (prepend [ {| text := py " okay" |}; {| text := py "okay " |}; {| text := py "okay" |};
                 {| text := py " okay " |}; {| text := py "okay" |} ]
         (Fails KeyboardInterrupt))
      loop_entry initial =
      (Ret {| transcribed_text := py "okay okay okay okay ";
              segments_processed := 5;
              last_segment_text := py "okay";
              repetition_count := 4 |}, after initial evs).
Proof.
  assert (Hnew : strip (py " okay") <> last_segment_text loop_entry).
  { vm_compute. discriminate. }
  destruct (five_identical_segments
              {| text := py " okay" |} {| text := py "okay " |} {| text := py "okay" |}
              {| text := py " okay " |} {| text := py "okay" |}
              (Fails KeyboardInterrupt) loop_entry initial Hnew
              eq_refl eq_refl eq_refl eq_refl) as (evs & Hrun & _).
  split; [exact Hnew|]. do 3 (split; [reflexivity|]). exists evs. exact Hrun.
Defined.

Lemma scan_runs g v v' :
  scan g v = Ret v' ->
  (repetition_count v < 4)%Z ->
  exists k : nat,
    segments_processed v' =
      (segments_processed v + Z.of_nat k
       + (if (4 <=? repetition_count v')%Z then 1 else 0))%Z /\
    runs_ok (last_segment_text v) (repetition_count v)
      (List.map (fun seg => strip (text seg)) (take k (yielded g))) = true.
Proof.
  revert v. induction g as [|seg rest IH|e]; intros v; simpl.
  - intros [= <-] Hc. exists 0%nat.
    destruct (Z.leb_spec 4 (repetition_count v)); [lia|]. split; [lia | reflexivity].
  - unfold loop_step.
    case_bool_decide as Heq.
    + destruct (Z.leb_spec 4 (repetition_count v + 1)) as [Hge|Hlt].
      * intros [= <-] Hc. exists 0%nat. simpl.
        destruct (Z.leb_spec 4 (repetition_count v + 1)); [|lia].
        split; [lia | reflexivity].
      * intros Hscan Hc. apply IH in Hscan as (k & Hp & Hok); [|simpl; lia].
        exists (S k). simpl in *. split; [lia|].
        rewrite (bool_decide_eq_true_2 _ Heq).
        apply andb_true_iff. split; [apply Z.ltb_lt; lia | exact Hok].
    + intros Hscan Hc. apply IH in Hscan as (k & Hp & Hok); [|simpl; lia].
      exists (S k). simpl in *. split; [lia|].
      rewrite (bool_decide_eq_false_2 _ Heq). exact Hok.
  - discriminate.
Qed.

Lemma runs_ok_no_five last count texts :
  (0 <= count)%Z -> runs_ok last count texts = true -> ~ has_run 5 texts.
Proof.
  intros Hc Hok (pre & t & post & ->). revert last count Hc Hok.
  induction pre as [|p pre IH]; intros last count Hc Hok.
  - change ([] ++ repeat t 5 ++ post) with (t :: t :: t :: t :: t :: post) in Hok.
    cbn [runs_ok] in Hok. case_bool_decide as Heq.
    + apply andb_true_iff in Hok as [_ Hok].
      apply andb_true_iff in Hok as [_ Hok].
      apply andb_true_iff in Hok as [_ Hok].
      apply andb_true_iff in Hok as [H4 _].
      apply Z.ltb_lt in H4. lia.
    + rewrite !(bool_decide_eq_true_2 (t = t) eq_refl) in Hok.
      apply andb_true_iff in Hok as [_ Hok].
      apply andb_true_iff in Hok as [_ Hok].
      apply andb_true_iff in Hok as [_ Hok].
      apply andb_true_iff in Hok as [H4 _].
      apply Z.ltb_lt in H4. lia.
  - change ((p :: pre) ++ repeat t 5 ++ post) with (p :: (pre ++ repeat t 5 ++ post)) in Hok.
    cbn [runs_ok] in Hok. case_bool_decide as Heq.
    + apply andb_true_iff in Hok as [_ Hok]. apply (IH last (count + 1)%Z); [lia | exact Hok].
    + apply (IH p 0%Z); [lia | exact Hok].
Qed.

(** X6.  When the loop ends normally, among the segments it consumed before
    any break no five consecutive ones have the same trimmed text; [k] is the
    number of those segments, read off [segments_processed]. *)
Theorem no_five_in_a_row (g : generator) (s s' : state) (v' : loop_vars) (k : nat) :
  for_segments g loop_entry s = (Ret v', s') ->
  segments_processed v' =
    (Z.of_nat k + (if (4 <=? repetition_count v')%Z then 1 else 0))%Z ->
  transcribed_text v' = appended (List.map (fun x => strip (text x)) (take k (yielded g))) /\
  ~ has_run 5 (List.map (fun x => strip (text x)) (take k (yielded g))).
Proof.
  intros Hrun Hk.
  destruct (for_segments_scan g loop_entry s) as (evs & _ & _ & Hscan).
  rewrite Hscan in Hrun. injection Hrun as Hres _.
  destruct (scan_text g loop_entry v' Hres) as (k1 & Hp1 & _ & Htext); [simpl; lia|].
  destruct (scan_runs g loop_entry v' Hres) as (k2 & Hp2 & Hok); [simpl; lia|].
  simpl in Hp1, Hp2, Htext, Hok.
  assert (k1 = k) by lia. assert (k2 = k) by lia. subst k1 k2.
  split; [exact Htext|].
  eapply runs_ok_no_five; [|exact Hok]. lia.
Qed.

Lemma no_five_in_a_row_witness :
  exists v' s',
    for_segments (five_foo sample_segments) loop_entry initial = (Ret v', s') /\
    segments_processed v' =
      (Z.of_nat 4 + (if (4 <=? repetition_count v')%Z then 1 else 0))%Z /\
    ~ has_run 5 (List.map (fun x => strip (text x))
                   (take 4 (yielded (five_foo sample_segments)))).
Proof.
  eexists. eexists.
  assert (Hrun : for_segments (five_foo sample_segments) loop_entry initial =
                 (Ret {| transcribed_text := py "foo foo foo foo ";
                         segments_processed := 5;
                         last_segment_text := py "foo";
                         repetition_count := 4 |},
                  snd (for_segments (five_foo sample_segments) loop_entry initial))).
  { vm_compute. reflexivity. }
  split; [exact Hrun|]. split; [reflexivity|].
  apply (no_five_in_a_row _ _ _ _ 4 Hrun). reflexivity.
Defined.

(** ** What a break hides, and what is consumed without one *)

Lemma for_segments_break_tail segs rest v s v' s0 :
  (repetition_count v < 4)%Z ->
  for_segments (prepend segs StopIteration) v s = (Ret v', s0) ->
  (4 <= repetition_count v')%Z ->
  for_segments (prepend segs rest) v s = (Ret v', s0).
Proof.
  revert v s. induction segs as [|seg segs IH]; intros v s Hc Hrun Hbroke.
  - simpl in Hrun. unfold bind, emit, ret in Hrun. simpl in Hrun.
    injection Hrun as <- _. lia.
  - change (prepend (seg :: segs) rest) with (Yield seg (prepend segs rest)).
    change (prepend (seg :: segs) StopIteration)
      with (Yield seg (prepend segs StopIteration)) in Hrun.
    cbn [for_segments] in *. unfold bind at 1. unfold bind at 1 in Hrun.
    rewrite emit_after in *. unfold bind at 1. unfold bind at 1 in Hrun.
    destruct (loop_body_guard seg v (after s [Call NextSegment]))
      as (fl & v1 & evs & Hbody & _ & _ & _ & Hcount & _).
    rewrite Hbody in *. destruct fl.
    + apply IH; [|exact Hrun|exact Hbroke].
      case_bool_decide; destruct Hcount as [Hcount Hfl].
      * rewrite Hcount in *. destruct (Z.leb_spec 4 (repetition_count v + 1)); [discriminate|lia].
      * lia.
    + exact Hrun.
Qed.

(** X7.  Once the loop has broken, what the generator would do next does not
    matter: if a finite stream makes the loop end by a break (the counter is
    4), then the same segments followed by anything else, even a generator
    that raises, give the same variables, the same events and the same final
    text. *)
Theorem break_hides_rest (segs : list segment) (rest : generator) (s s0 : state)
    (v' : loop_vars) :
  for_segments (prepend segs StopIteration) loop_entry s = (Ret v', s0) ->
  (4 <= repetition_count v')%Z ->
  for_segments (prepend segs rest) loop_entry s = (Ret v', s0) /\
  exists evs,
    collect_text (prepend segs rest) s =
      (Ret (truncated (strip (transcribed_text v'))), after s evs).
Proof.
  intros Hrun Hbroke.
  assert (Hrest : for_segments (prepend segs rest) loop_entry s = (Ret v', s0)).
  { apply for_segments_break_tail; [simpl; lia | exact Hrun | exact Hbroke]. }
  split; [exact Hrest|].
  destruct (for_segments_scan (prepend segs rest) loop_entry s) as (evs0 & _ & _ & Hscan).
  rewrite Hscan in Hrest. injection Hrest as Hres _.
  destruct (collect_text_final (prepend segs rest) s) as (evs & _ & Hcollect).
  exists evs. unfold final_text in Hcollect. rewrite Hres in Hcollect. exact Hcollect.
Qed.

Lemma break_hides_rest_witness :
  exists v' s0,
    for_segments (prepend (repeat foo_segment 5) StopIteration) loop_entry initial =
      (Ret v', s0) /\
    (4 <= repetition_count v')%Z /\
    exists evs,
      collect_text (prepend (repeat foo_segment 5) (Fails (OtherException (py "decode error"))))
        initial = (Ret (py "foo foo foo foo"), after initial evs).
Proof.
  assert (Hrun : for_segments (prepend (repeat foo_segment 5) StopIteration) loop_entry initial =
                 (Ret {| transcribed_text := py "foo foo foo foo ";
                         segments_processed := 5;
                         last_segment_text := py "foo";
                         repetition_count := 4 |},
                  snd (for_segments (prepend (repeat foo_segment 5) StopIteration)
                         loop_entry initial))).
  { vm_compute. reflexivity. }
  eexists. eexists. split; [exact Hrun|]. split; [simpl; lia|].
  destruct (break_hides_rest (repeat foo_segment 5) (Fails (OtherException (py "decode error")))
              _ _ _ Hrun) as [_ (evs & Hcollect)]; [simpl; lia|].
  exists evs. exact Hcollect.
Defined.

Lemma scan_counter g v v' :
  scan g v = Ret v' ->
  (0 <= repetition_count v < 4)%Z ->
  (0 <= repetition_count v' <= 4)%Z.
Proof.
  revert v. induction g as [|seg rest IH|e]; intros v; simpl.
  - intros [= <-] Hc. lia.
  - unfold loop_step.
    destruct (bool_decide (strip (text seg) = last_segment_text v)).
    + destruct (Z.leb_spec 4 (repetition_count v + 1)) as [Hge|Hlt].
      * intros [= <-] Hc. simpl. lia.
      * intros Hscan Hc. apply IH in Hscan; [exact Hscan | simpl; lia].
    + intros Hscan Hc. apply IH in Hscan; [exact Hscan | simpl; lia].
  - discriminate.
Qed.

Lemma scan_whole g v v' :
  scan g v = Ret v' ->
  (repetition_count v' < 4)%Z ->
  failure g = None /\
  segments_processed v' = (segments_processed v + len (yielded g))%Z /\
  transcribed_text v' =
    transcribed_text v ++ appended (List.map (fun seg => strip (text seg)) (yielded g)).
Proof.
  revert v. induction g as [|seg rest IH|e]; intros v; simpl.
  - intros [= <-] Hc. split; [reflexivity|]. unfold len. simpl.
    split; [lia|]. unfold appended. simpl. rewrite app_nil_r. reflexivity.
  - unfold loop_step.
    destruct (bool_decide (strip (text seg) = last_segment_text v)).
    + destruct (Z.leb_spec 4 (repetition_count v + 1)) as [Hge|Hlt].
      * intros [= <-] Hc. simpl in Hc. lia.
      * intros Hscan Hc. destruct (IH _ Hscan Hc) as (Hf & Hp & Ht).
        split; [exact Hf|]. unfold len in *. simpl in *. split; [lia|].
        rewrite Ht, appended_cons.
        destruct (kept (strip (text seg))); rewrite <- ?app_assoc; reflexivity.
    + intros Hscan Hc. destruct (IH _ Hscan Hc) as (Hf & Hp & Ht).
      split; [exact Hf|]. unfold len in *. simpl in *. split; [lia|].
      rewrite Ht, appended_cons.
      destruct (kept (strip (text seg))); rewrite <- ?app_assoc; reflexivity.
  - discriminate.
Qed.

(** X8.  When the loop ends normally the repeat counter is between 0 and 4.
    If it is below 4 the loop was not ended by a break, and then nothing was
    dropped: the generator ended without raising, every segment it yields was
    counted, and the accumulated text is made of all of them that pass the
    length filter. *)
Theorem no_break_consumes_all (g : generator) (s s' : state) (v' : loop_vars) :
  for_segments g loop_entry s = (Ret v', s') ->
  (0 <= repetition_count v' <= 4)%Z /\
  ((repetition_count v' < 4)%Z ->
     failure g = None /\
     segments_processed v' = len (yielded g) /\
     transcribed_text v' = appended (List.map (fun seg => strip (text seg)) (yielded g))).
Proof.
  intros Hrun.
  destruct (for_segments_scan g loop_entry s) as (evs & _ & _ & Hscan).
  rewrite Hscan in Hrun. injection Hrun as Hres _.
  split; [eapply scan_counter; [exact Hres | simpl; lia]|].
  intros Hc. destruct (scan_whole g loop_entry v' Hres Hc) as (Hf & Hp & Ht).
  simpl in Hp, Ht. auto.
Qed.

Lemma no_break_consumes_all_witness :
  exists v' s',
    for_segments sample_segments loop_entry initial = (Ret v', s') /\
    (repetition_count v' < 4)%Z /\
    segments_processed v' = 3%Z /\
    transcribed_text v' = py "Hello there. How are you? ".
Proof.
  assert (Hrun : for_segments sample_segments loop_entry initial =
                 (Ret {| transcribed_text := py "Hello there. How are you? ";
                         segments_processed := 3;
                         last_segment_text := py "How are you?";
                         repetition_count := 0 |},
                  snd (for_segments sample_segments loop_entry initial))).
  { vm_compute. reflexivity. }
  eexists. eexists. split; [exact Hrun|].
  destruct (no_break_consumes_all _ _ _ _ Hrun) as [_ Hall].
  destruct Hall as (_ & Hp & Ht); [simpl; lia|].
  split; [simpl; lia|]. split; [exact Hp | exact Ht].
Defined.

(** ** What the ratio guard keeps *)

(** X9.  The ratio guard never removes all words: the words of its output
    are a prefix of the words of its input, all of them when the text is
    returned unchanged, and between 3 and 50 of them (fewer than before)
    when it is changed. *)
Theorem guard_keeps_prefix (t : str) (s : state) :
  exists t' evs (m : nat),
    repetition_guard t s = (Ret t', after s evs) /\
    split t' = take m (split t) /\
    (m <= length (split t))%nat /\
    (t' <> t -> (3 <= m <= 50)%nat /\ (m < length (split t))%nat) /\
    (split t <> [] -> split t' <> []).
Proof.
  destruct (repetition_guard_truncated t s) as (evs & _ & Hrun).
  exists (truncated t), evs. unfold truncated in *.
  destruct (decide (ratio_exceeded (split t))) as [[Hlen _]|_].
  - set (words := split t) in *. unfold len in Hlen.
    assert (Hdiv : (3 <= Z.of_nat (length words) / 3 < Z.of_nat (length words))%Z).
    { split; [apply Z.div_le_lower_bound; lia | apply Z.div_lt_upper_bound; lia]. }
    exists (Z.to_nat (Z.min 50 (len words / 3))). unfold len.
    assert (Hsplit : split (join (py " ")
                              (take (Z.to_nat (Z.min 50 (Z.of_nat (length words) / 3))) words)) =
                     take (Z.to_nat (Z.min 50 (Z.of_nat (length words) / 3))) words).
    { apply split_join, Forall_take, split_words. }
    split; [exact Hrun|]. split; [exact Hsplit|]. split; [lia|]. split; [intros _; lia|].
    intros _. rewrite Hsplit. intros Hnil.
    apply (f_equal (@length str)) in Hnil. rewrite length_take in Hnil. simpl in Hnil. lia.
  - exists (length (split t)). split; [exact Hrun|].
    split; [symmetry; apply firstn_all|]. split; [lia|].
    split; [intros Hne; congruence | intros Hne; exact Hne].
Qed.

Lemma filter_split_length {A} (f : A -> bool) (l : list A) :
  length l = (length (List.filter f l) + length (List.filter (fun x => negb (f x)) l))%nat.
Proof.
  induction l as [|x l IH]; [reflexivity|].
  simpl. destruct (f x); simpl; lia.
Qed.

Lemma filter_filter_length {A} (f g : A -> bool) (l : list A) :
  (length (List.filter f (List.filter g l)) <= length (List.filter f l))%nat.
Proof.
  induction l as [|x l IH]; [reflexivity|].
  simpl. destruct (g x), (f x) eqn:Hf; simpl; rewrite ?Hf; simpl; lia.
Qed.

(** Words that occur at most three times each are at most three times as
    many as the distinct ones. *)
Lemma rare_words_bound (n : nat) (words : list str) :
  (length words <= n)%nat ->
  (forall w, occurrences_of w words <= 3)%nat ->
  (len words <= 3 * unique_count words)%Z.
Proof.
  revert words. induction n as [|n IH]; intros words Hn Hocc.
  - destruct words; [|simpl in Hn; lia]. unfold len, unique_count. simpl. lia.
  - destruct words as [|w ws]; [unfold len, unique_count; simpl; lia|].
    set (rest := List.filter (fun x => negb (bool_decide (x = w))) ws).
    assert (Hset : (list_to_set (w :: ws) : gset str) = {[w]} ∪ list_to_set rest).
    { apply set_eq. intros x.
      rewrite elem_of_union, elem_of_singleton, !elem_of_list_to_set, elem_of_cons.
      unfold rest. rewrite !list_elem_of_In, filter_In, negb_true_iff, bool_decide_eq_false.
      destruct (decide (x = w)); tauto. }
    assert (Hnotin : w ∉ (list_to_set rest : gset str)).
    { rewrite elem_of_list_to_set, list_elem_of_In. unfold rest.
      rewrite filter_In, negb_true_iff, bool_decide_eq_false. tauto. }
    assert (Hsize : size (list_to_set (w :: ws) : gset str) =
                    S (size (list_to_set rest : gset str))).
    { rewrite Hset. rewrite size_union; [rewrite size_singleton; reflexivity|].
      apply disjoint_singleton_l. exact Hnotin. }
    assert (Hw := Hocc w). unfold occurrences_of in Hw. cbn [List.filter] in Hw.
    rewrite (bool_decide_eq_true_2 (w = w) eq_refl) in Hw. cbn [length] in Hw.
    pose proof (filter_split_length (fun x => bool_decide (x = w)) ws) as Hsplit.
    cbv beta in Hsplit. fold rest in Hsplit.
    assert (Hrest : (len rest <= 3 * unique_count rest)%Z).
    { apply IH.
      - simpl in Hn. lia.
      - intros x. specialize (Hocc x). unfold occurrences_of in *. unfold rest.
        etransitivity; [apply filter_filter_length|].
        cbn [List.filter] in Hocc.
        destruct (bool_decide (w = x)); cbn [length] in Hocc; lia. }
    unfold len, unique_count in *. rewrite Hsize. cbn [length]. lia.
Qed.

(** X10.  A text in which no word occurs more than three times passes the
    ratio guard unchanged, and without a warning on the error stream. *)
Theorem rare_words_untouched (t : str) (s : state) :
  (forall w, occurrences_of w (split t) <= 3)%nat ->
  repetition_guard t s = (Ret t, s).
Proof.
  intros Hocc. unfold repetition_guard.
  destruct (Z.ltb_spec 10 (len (split t))) as [Hlen|Hlen]; [|reflexivity].
  pose proof (rare_words_bound _ (split t) (le_n _) Hocc) as Hbound.
  assert (Hu : (0 < unique_count (split t))%Z) by lia.
  unfold ratio_of. case_bool_decide as Hempty.
  { unfold unique_count in Hu. rewrite Hempty, size_empty in Hu. lia. }
  destruct (truediv_ratio (len (split t)) (unique_count (split t)) s Hu) as (q & Hq & Heq).
  unfold bind at 1. unfold unique_count in Hq. rewrite Hq.
  destruct (Qlt_le_dec 3 q) as [Hr|Hr]; [|reflexivity].
  exfalso. rewrite Heq in Hr.
  assert (Hex : ratio_exceeded (split t)) by (split; assumption).
  apply ratio_exceeded_int in Hex. lia.
Qed.

(** The bound on the occurrences need only be checked for the words of the
    list. *)
Lemma occurrences_checked (words : list str) (bound : nat) :
  forallb (fun x => (occurrences_of x words <=? bound)%nat) words = true ->
  forall w, (occurrences_of w words <= bound)%nat.
Proof.
  intros Hall w. rewrite forallb_forall in Hall.
  destruct (decide (w ∈ words)) as [Hin|Hout]; rewrite list_elem_of_In in *.
  - apply Nat.leb_le. apply Hall. exact Hin.
  - unfold occurrences_of.
    replace (List.filter (fun x => bool_decide (x = w)) words) with (@nil str); [simpl; lia|].
    symmetry. clear Hall. induction words as [|x words IH]; [reflexivity|].
    simpl. case_bool_decide as Heq.
    + exfalso. apply Hout. left. exact Heq.
    + apply IH. intros Hin. apply Hout. right. exact Hin.
Qed.

Lemma rare_words_untouched_witness :
  (forall w, occurrences_of w (split (py "a b c d e f g h i j k l a b c d e f")) <= 3)%nat /\
  repetition_guard (py "a b c d e f g h i j k l a b c d e f") initial =
    (Ret (py "a b c d e f g h i j k l a b c d e f"), initial).
Proof.
  assert (Hocc : forall w,
             (occurrences_of w (split (py "a b c d e f g h i j k l a b c d e f")) <= 3)%nat).
  { apply occurrences_checked. vm_compute. reflexivity. }
  split; [exact Hocc|].
  apply (rare_words_untouched (py "a b c d e f g h i j k l a b c d e f") initial Hocc).
Defined.

Lemma guard_keeps_prefix_witness :
  exists t' evs (m : nat),
    repetition_guard looping_text initial = (Ret t', after initial evs) /\
    split t' = take m (split looping_text) /\
    split t' <> [].
Proof.
  destruct (guard_keeps_prefix looping_text initial)
    as (t' & evs & m & Hrun & Hsplit & _ & _ & Hne).
  exists t', evs, m. split; [exact Hrun|]. split; [exact Hsplit|].
  apply Hne. vm_compute. discriminate.
Defined.

(** ** The order of the collaborator calls *)

Lemma collect_text_pulls g s :
  exists evs,
    calls evs = repeat NextSegment (pulls g loop_entry) /\
    collect_text g s = (final_text g, after s evs).
Proof.
  unfold collect_text, final_text, print, flush.
  unfold bind at 1. rewrite emit_after. unfold bind at 1. rewrite emit_after, after_after.
  destruct (for_segments_scan g loop_entry (after s ([Print stderr (Diag DebugProcessing)] ++ [Flush stderr])))
    as (evs & _ & Hcalls & Hloop).
  unfold bind at 1. rewrite Hloop, after_after.
  destruct (scan g loop_entry) as [v|e].
  - unfold bind at 1. rewrite emit_after. unfold bind at 1. rewrite emit_after, !after_after.
    match goal with |- context [repetition_guard ?t ?st] =>
      destruct (repetition_guard_truncated t st) as (evs' & Hevs' & Hguard) end.
    rewrite Hguard, after_after. eexists. split; [|reflexivity].
    rewrite !calls_app, Hcalls, (diag_calls evs' Hevs'). simpl.
    rewrite !app_nil_r. reflexivity.
  - eexists. split; [|reflexivity].
    rewrite !calls_app, Hcalls. simpl. rewrite ?app_nil_r. reflexivity.
Qed.

Lemma try_body_calls w audio_file_path model_size :
  exists (n m : nat) (c : bool),
    calls (trace (snd (try_body w audio_file_path model_size initial))) =
      take n (setup_calls c audio_file_path model_size) ++ repeat NextSegment m /\
    (1 <= n <= 5)%nat /\
    (m <> 0%nat -> n = 5%nat) /\
    (4 <= n -> cuda_is_available w = Ret c)%nat.
Proof.
  destruct w as [ifw it cuda wm tr clk]; simpl.
  destruct ifw as [[]|e1].
  2:{ exists 1%nat, 0%nat, false. run_monad. repeat split; lia. }
  destruct it as [[]|e2].
  2:{ exists 2%nat, 0%nat, false. run_monad. repeat split; lia. }
  destruct cuda as [c|e3].
  2:{ exists 3%nat, 0%nat, false. run_monad. repeat split; lia. }
  destruct wm as [[]|e4].
  2:{ exists 4%nat, 0%nat, c. run_monad.
      repeat split; try lia; try (intros; reflexivity); destruct c; reflexivity. }
  destruct tr as [[g info]|e5].
  2:{ exists 5%nat, 0%nat, c. run_monad.
      repeat split; try lia; try (intros; reflexivity); destruct c; reflexivity. }
  run_monad.
  match goal with |- context [collect_text g ?st] =>
    destruct (collect_text_pulls g st) as (evs & Hcalls & Hrun) end.
  rewrite !Hrun. unfold after. simpl. clear Hrun.
  exists 5%nat, (pulls g loop_entry), c.
  split; [|repeat split; try lia; intros; reflexivity].
  destruct (final_text g); simpl; rewrite ?calls_app, Hcalls; simpl; rewrite ?app_nil_r;
    destruct c; reflexivity.
Qed.

(** X11.  The collaborators are called in one fixed order: import of the
    transcription library, import of torch, the accelerator check, the model
    load, the inference call, then steps of the segment generator.  Each of
    the first five is called at most once and only after all earlier ones
    answered, and the generator is advanced only after the inference call.
    The model load and the inference call get the audio path and model size
    of the command line and the parameters of the accelerator flag. *)
Theorem call_order (w : world) (argv : list str) :
  exists (n m : nat) (cuda_available : bool) (audio_file_path model_size : str),
    calls (events (run_script w argv)) =
      take n (setup_calls cuda_available audio_file_path model_size) ++
      repeat NextSegment m /\
    (n <= 5)%nat /\
    (m <> 0%nat -> n = 5%nat) /\
    (4 <= n -> cuda_is_available w = Ret cuda_available)%nat /\
    (n <> 0%nat ->
       exists prog optional,
         argv = prog :: audio_file_path :: optional /\
         model_size = model_size_of optional).
Proof.
  destruct (argv_cases argv) as [Hbad | (prog & audio & optional & -> & Hlen)].
  { exists 0%nat, 0%nat, false, [], []. rewrite (run_script_usage w argv Hbad).
    repeat split; try lia; try reflexivity. }
  destruct (try_body_calls w audio (model_size_of optional)) as (n & m & c & Hcalls & Hn & Hm & Hc).
  exists n, m, c, audio, (model_size_of optional).
  rewrite (run_script_calls w prog audio optional Hlen).
  split; [exact Hcalls|]. split; [lia|]. split; [exact Hm|]. split; [exact Hc|].
  intros _. exists prog, optional. split; reflexivity.
Qed.

(** ** The success record *)

(** X12.  A success record passes on what the collaborators answered: its
    text is the final text of the segments that [model.transcribe] returned,
    its language, language probability and duration are those of the
    returned info, and its model size is the second positional argument, or
    "small" without one. *)
Theorem success_record_fields (w : world) (prog audio_file_path : str) (optional : list str)
    (j : json) :
  let r := run_script w (prog :: audio_file_path :: optional) in
  (length optional <= 1)%nat ->
  ending r = Exit 0 ->
  In (Json j) (printed stdout (events r)) ->
  exists segments info txt,
    transcribe w = Ret (segments, info) /\
    (forall s, exists evs, collect_text segments s = (Ret txt, after s evs)) /\
    field "text" j = Some (JStr txt) /\
    field "language" j = Some (JStr (info_language info)) /\
    field "language_probability" j = Some (JFloat (info_language_probability info)) /\
    field "duration" j = Some (JFloat (info_duration info)) /\
    field "model_size" j = Some (JStr (model_size_of optional)).
Proof.
  intros r Hlen Hexit Hin. subst r.
  destruct (run_script_accepted w prog audio_file_path optional Hlen)
    as (evs & Hevs & _ & _ & Hrun).
  rewrite Hrun in Hexit, Hin.
  rewrite printed_run_of_result in Hin by exact Hevs.
  rewrite ending_run_of_result in Hexit.
  destruct (try_result w audio_file_path (model_size_of optional)) as [j'|e] eqn:Hres.
  2:{ destruct e; simpl in Hexit; try discriminate. destruct Hin. }
  destruct Hin as [[= <-]|[]].
  apply try_result_success in Hres as (c & g & info & txt & _ & Htr & Htxt & ->).
  exists g, info, txt. split; [exact Htr|]. split; [|repeat split].
  intros s. destruct (collect_text_final g s) as (evs' & _ & Hcollect).
  exists evs'. rewrite Hcollect, Htxt. reflexivity.
Qed.

Lemma success_record_fields_witness :
  (length [py "base"] <= 1)%nat /\
  ending (run_script (sample_world true) [script; wav; py "base"]) = Exit 0 /\
  exists j,
    In (Json j) (printed stdout (events (run_script (sample_world true) [script; wav; py "base"]))) /\
    field "text" j = Some (JStr (py "Hello there. How are you?")) /\
    field "model_size" j = Some (JStr (py "base")).
Proof.
  assert (Hlen : (length [py "base"] <= 1)%nat) by (simpl; lia).
  split; [exact Hlen|]. split; [reflexivity|].
  eexists. split; [vm_compute; left; reflexivity|].
  match goal with |- field "text" ?j = _ /\ _ =>
    destruct (success_record_fields (sample_world true) script wav [py "base"] j Hlen eq_refl)
      as (g & info & txt & _ & _ & _ & _ & _ & _ & Hsize) end.
  - vm_compute. left. reflexivity.
  - split; [reflexivity | exact Hsize].
Defined.

(** ** No partial transcript *)

Lemma scan_fail_tail segs e v v' :
  scan (prepend segs StopIteration) v = Ret v' ->
  (repetition_count v' < 4)%Z ->
  scan (prepend segs (Fails e)) v = Raise e.
Proof.
  revert v. induction segs as [|seg segs IH]; intros v Hscan Hc; [reflexivity|].
  change (prepend (seg :: segs) (Fails e)) with (Yield seg (prepend segs (Fails e))).
  change (prepend (seg :: segs) StopIteration)
    with (Yield seg (prepend segs StopIteration)) in Hscan.
  cbn [scan] in *. unfold loop_step in *.
  destruct (bool_decide (strip (text seg) = last_segment_text v)).
  - destruct (Z.leb_spec 4 (repetition_count v + 1)) as [Hge|Hlt].
    + injection Hscan as <-. simpl in Hc. lia.
    + apply IH; assumption.
  - apply IH; assumption.
Qed.

(** X13.  No partial transcript is emitted.  When every collaborator
    answers but the segment generator raises an exception (derived from
    [Exception], not an [ImportError]) after yielding segments that did not
    break the loop, the text accumulated so far is dropped: the only JSON
    object is the record tagged "Transcription failed", with the message of
    the exception and the audio path and without a text field, and the exit
    status is 1. *)
Theorem partial_transcript_discarded (w : world) (prog audio_file_path : str)
    (optional : list str) (cuda_available : bool) (segs : list segment)
    (info : transcription_info) (m : str) (s s0 : state) (v' : loop_vars) :
  (length optional <= 1)%nat ->
  import_faster_whisper w = Ret tt ->
  import_torch w = Ret tt ->
  cuda_is_available w = Ret cuda_available ->
  whisper_model w = Ret tt ->
  transcribe w = Ret (prepend segs (Fails (OtherException m)), info) ->
  for_segments (prepend segs StopIteration) loop_entry s = (Ret v', s0) ->
  (repetition_count v' < 4)%Z ->
  let r := run_script w (prog :: audio_file_path :: optional) in
  let record := failure_record (OtherException m) audio_file_path in
  printed stdout (events r) = [Json record] /\
  ending r = Exit 1 /\
  field "error" record = Some (JStr (py "Transcription failed")) /\
  field "details" record = Some (JStr m) /\
  field "audio_file" record = Some (JStr audio_file_path) /\
  field "text" record = None.
Proof.
  intros Hlen Hfw Htorch Hcuda Hmodel Htr Hrun Hc r record. subst r record.
  destruct (for_segments_scan (prepend segs StopIteration) loop_entry s)
    as (evs0 & _ & _ & Hscan).
  rewrite Hscan in Hrun. injection Hrun as Hres _.
  assert (Hfail : try_result w audio_file_path (model_size_of optional) =
                  Raise (OtherException m)).
  { unfold try_result. rewrite Hfw, Htorch, Hcuda, Hmodel, Htr. unfold final_text.
    rewrite (scan_fail_tail segs (OtherException m) loop_entry v' Hres Hc). reflexivity. }
  destruct (run_script_accepted w prog audio_file_path optional Hlen)
    as (evs & Hevs & _ & _ & ->).
  rewrite printed_run_of_result, ending_run_of_result, Hfail by exact Hevs.
  repeat split.
Qed.

Lemma partial_transcript_discarded_witness :
  (length (@nil str) <= 1)%nat /\
  printed stdout (events (run_script failing_world [script; wav])) =
    [Json (failure_record (OtherException (py "Invalid data found when processing input"))
             wav)] /\
  ending (run_script failing_world [script; wav]) = Exit 1.
Proof.
  assert (Hlen : (length (@nil str) <= 1)%nat) by (simpl; lia).
  assert (Hrun : for_segments
                   (prepend [ {| text := py " Hello there. " |};
                              {| text := py " How are you?" |} ] StopIteration)
                   loop_entry initial =
                 (Ret {| transcribed_text := py "Hello there. How are you? ";
                         segments_processed := 2;
                         last_segment_text := py "How are you?";
                         repetition_count := 0 |},
                  snd (for_segments
                         (prepend [ {| text := py " Hello there. " |};
                                    {| text := py " How are you?" |} ] StopIteration)
                         loop_entry initial))).
  { vm_compute. reflexivity. }
  destruct (partial_transcript_discarded failing_world script wav [] false _ sample_info
              (py "Invalid data found when processing input") _ _ _
              Hlen eq_refl eq_refl eq_refl eq_refl eq_refl Hrun) as (Hout & Hend & _).
  - simpl. lia.
  - split; [exact Hlen|]. split; [exact Hout | exact Hend].
Defined.
